(** * Navigation queue of Geany (src/navqueue.c)

    A shallow embedding of the navigation history: anchors, the refresh
    of an anchor from the navigation indicator, the queue and its cursor,
    and the four public mutations.  The collaborators the file calls into
    (document registry, Scintilla indicator wrappers, editor cursor) are
    an interface, [Editor]; the queue code is embedded over any
    implementation of it.  navqueue_free and navqueue_goto_line come
    after the four mutations. *)

From Stdlib Require Import ZArith Lia.
From stdpp Require Import base option list strings.

(** ** Machine integers *)

(** [gint] is a 32-bit signed integer.  A value stored into a [gint]
    variable is reduced to its range. *)
Definition to_gint (z : Z) : Z := ((z + 2147483648) mod 4294967296 - 2147483648)%Z.

(** #define MAX_NAVQUEUE_LENGTH 100 *)
Definition MAX_NAVQUEUE_LENGTH : nat := 100.

(** ** The collaborators

    Everything navqueue.c calls that lives in document.c, sciwrappers.c
    and editor.c.  [World] is the state of the documents array and of the
    Scintilla widgets; a [GeanyDocument] is a non-NULL [GeanyDocument *]
    (the pointer stays valid after the document is closed, only
    [is_valid] is cleared). *)
Class Editor : Type := {
  World : Type;
  GeanyDocument : Type;
  GeanyDocument_eq_dec :: EqDecision GeanyDocument;
  (** doc->is_valid *)
  doc_is_valid : World → GeanyDocument → bool;
  (** doc->file_name, NULL as [None] *)
  doc_file_name : World → GeanyDocument → option string;
  document_find_by_filename : World → string → option GeanyDocument;
  document_get_current : World → option GeanyDocument;
  (** sci_indicator_value_at(doc->editor->sci, GEANY_INDICATOR_NAVIGATION, pos) *)
  sci_indicator_value_at : World → GeanyDocument → Z → Z;
  (** sci_indicator_end(doc->editor->sci, GEANY_INDICATOR_NAVIGATION, pos) *)
  sci_indicator_end : World → GeanyDocument → Z → Z;
  (** sci_indicator_set; sci_indicator_set_value(value); sci_indicator_fill(pos, 1) *)
  sci_indicator_fill : World → GeanyDocument → Z → Z → World;
  (** sci_indicator_set; sci_indicator_clear(pos, 1) *)
  sci_indicator_clear : World → GeanyDocument → Z → World;
  sci_get_current_position : World → GeanyDocument → Z;
  (** editor_goto_pos(doc->editor, pos, TRUE) *)
  editor_goto_pos : World → GeanyDocument → Z → bool * World;
}.

(** Modelled from the spec: the marker substrate of section 6,
    [tag_unit_range(offset, id)], [clear_unit_range(offset)] and
    [value_at(offset)], scoped to one document.  Tagging writes the id on
    the unit at the offset, clearing writes 0 ("none") there, and neither
    touches another unit, another document, or the document registry. *)
Class MarkerLaws (E : Editor) : Prop := {
  value_at_fill w d v p d' q :
    sci_indicator_value_at (sci_indicator_fill w d v p) d' q =
    if decide (d' = d ∧ q = p) then v else sci_indicator_value_at w d' q;
  value_at_clear w d p d' q :
    sci_indicator_value_at (sci_indicator_clear w d p) d' q =
    if decide (d' = d ∧ q = p) then 0%Z else sci_indicator_value_at w d' q;
  is_valid_fill w d v p d' :
    doc_is_valid (sci_indicator_fill w d v p) d' = doc_is_valid w d';
  file_name_fill w d v p d' :
    doc_file_name (sci_indicator_fill w d v p) d' = doc_file_name w d';
  is_valid_clear w d p d' :
    doc_is_valid (sci_indicator_clear w d p) d' = doc_is_valid w d';
  file_name_clear w d p d' :
    doc_file_name (sci_indicator_clear w d p) d' = doc_file_name w d';
}.

(** Modelled from the spec: utils_str_equal (utils.c) compares two file
    identities, NULL being equal to NULL only. *)
Definition utils_str_equal (a b : option string) : bool := bool_decide (a = b).

(** ** The slow path of refresh_anchor: the scan over indicator ranges *)

(** How the do-while loop of refresh_anchor is left: by the [return]
    inside it, with the offset where the id was seen, or by its
    condition [pos > prev] failing. *)
Inductive scan_result : Type :=
  | Found (pos : Z)
  | NotFound.

Section IndicatorScan.
(** The two queries on the document being scanned, and the anchor's id. *)
Variables (value_at range_end : Z → Z) (id : Z).

(** One pass through the loop body at [pos]; [again] is what follows
    when the condition [pos > prev] holds.  The end of the range is
    stored into the [gint] variable [pos]. *)
Definition scan_body (again : Z → scan_result) (pos : Z) : scan_result :=
  let prev := pos in
  if (value_at pos =? id)%Z then Found pos
  else
    let pos := to_gint (range_end pos) in
    if (pos >? prev)%Z then again pos else NotFound.

(** [scan_unroll n again pos] is the loop unrolled [2^n] times, followed
    by [again]. *)
Fixpoint scan_unroll (n : nat) (again : Z → scan_result) (pos : Z) : scan_result :=
  match n with
  | O => scan_body again pos
  | S n' => scan_unroll n' (scan_unroll n' again) pos
  end.

(** The loop from [pos = 0].  [pos] grows strictly from one pass to the
    next and is a [gint], so fewer than [2^32] passes are made and the
    continuation after them is not reached ([scan_unroll_exec]). *)
Definition indicator_scan : scan_result :=
  scan_unroll 32 (λ _, NotFound) 0.

(** The executions of the loop: [scan_exec pos r] when the loop entered
    at [pos] is left with [r] after finitely many passes. *)
Inductive scan_exec : Z → scan_result → Prop :=
  | scan_exec_found pos :
      value_at pos = id → scan_exec pos (Found pos)
  | scan_exec_stop pos :
      value_at pos ≠ id → (to_gint (range_end pos) <= pos)%Z →
      scan_exec pos NotFound
  | scan_exec_next pos r :
      value_at pos ≠ id → (to_gint (range_end pos) > pos)%Z →
      scan_exec (to_gint (range_end pos)) r →
      scan_exec pos r.

End IndicatorScan.

(** ** Anchors and the queue *)

Section Navqueue.
Context {E : Editor}.

(** typedef struct { gchar *file; GeanyDocument *doc; gint id; gint pos; }
    NavigationAnchor.  [file] is never NULL: it is copied from a file name
    that navqueue_add_position has checked. *)
Record NavigationAnchor : Type := {
  anchor_file : string;
  anchor_doc : option GeanyDocument;
  anchor_id : Z;
  anchor_pos : Z;
}.

(** The static variables of navqueue.c, with the world they act on.
    [navigation_queue] has its head first.  [nav_queue_pos] is a [guint];
    every subtraction on it below is guarded by the test before it and
    it is only incremented below the queue length, so it is a [nat].
    [navigation_buttons] is the sensitivity last given to NavBack and
    NavFor. *)
Record NavState : Type := {
  world : World;
  navigation_queue : list NavigationAnchor;
  nav_queue_pos : nat;
  counter : Z;
  navigation_buttons : bool * bool;
}.

(** #define DOC_VALID(doc_ptr) ((doc_ptr) != NULL && (doc_ptr)->is_valid) *)
Definition DOC_VALID (w : World) (doc_ptr : option GeanyDocument) : bool :=
  match doc_ptr with
  | Some d => doc_is_valid w d
  | None => false
  end.

Definition navqueue_init (w : World) : NavState :=
  {| world := w; navigation_queue := []; nav_queue_pos := 0; counter := 0;
     navigation_buttons := (false, false) |}.

Definition adjust_buttons (s : NavState) : NavState :=
  let set b :=
    {| world := world s; navigation_queue := navigation_queue s;
       nav_queue_pos := nav_queue_pos s; counter := counter s;
       navigation_buttons := b |} in
  if length (navigation_queue s) <? 2 then set (false, false)
  else if nav_queue_pos s =? 0 then set (true, false)
  else set (nav_queue_pos s <? length (navigation_queue s) - 1, true).

(** [file] is doc->file_name, which the caller has found not NULL. *)
Definition set_anchor (w : World) (counter : Z) (doc : GeanyDocument)
    (file : string) (pos : Z) : NavigationAnchor * World * Z :=
  let counter := to_gint (counter + 1) in
  let anchor :=
    {| anchor_file := file; anchor_doc := Some doc; anchor_id := counter;
       anchor_pos := pos |} in
  (anchor, sci_indicator_fill w doc (anchor_id anchor) (anchor_pos anchor), counter).

Definition refresh_anchor (w : World) (anchor : NavigationAnchor) : NavigationAnchor :=
  let doc :=
    if negb (DOC_VALID w (anchor_doc anchor))
       || negb (utils_str_equal (anchor_doc anchor ≫= doc_file_name w)
                                (Some (anchor_file anchor)))
    then document_find_by_filename w (anchor_file anchor)
    else anchor_doc anchor in
  let anchor :=
    {| anchor_file := anchor_file anchor; anchor_doc := doc;
       anchor_id := anchor_id anchor; anchor_pos := anchor_pos anchor |} in
  match doc with
  | None => anchor
  | Some d =>
      if (anchor_id anchor =? 0)%Z then anchor
      else if (sci_indicator_value_at w d (anchor_pos anchor) =? anchor_id anchor)%Z
      then anchor
      else
        match indicator_scan (sci_indicator_value_at w d) (sci_indicator_end w d)
                (anchor_id anchor) with
        | Found pos =>
            {| anchor_file := anchor_file anchor; anchor_doc := doc;
               anchor_id := anchor_id anchor; anchor_pos := pos |}
        | NotFound =>
            {| anchor_file := anchor_file anchor; anchor_doc := doc;
               anchor_id := 0; anchor_pos := anchor_pos anchor |}
        end
  end.

(** The anchor is freed afterwards; what remains is the world. *)
Definition clear_anchor (w : World) (anchor : NavigationAnchor) : World :=
  let anchor := refresh_anchor w anchor in
  match anchor_doc anchor with
  | Some d =>
      if (sci_indicator_value_at w d (anchor_pos anchor) =? anchor_id anchor)%Z
      then sci_indicator_clear w d (anchor_pos anchor)
      else w
  | None => w
  end.

(** The anchor is refreshed in place, so the queue changes with it. *)
Definition queue_pos_matches (w : World) (queue : list NavigationAnchor)
    (queue_pos : nat) (doc : GeanyDocument) (pos : Z)
    : bool * list NavigationAnchor :=
  if queue_pos <? length queue then
    match queue !! queue_pos with
    | Some anchor =>
        if utils_str_equal (Some (anchor_file anchor)) (doc_file_name w doc) then
          let anchor := refresh_anchor w anchor in
          (bool_decide (anchor_pos anchor = pos), <[queue_pos := anchor]> queue)
        else (false, queue)
    | None => (false, queue)
    end
  else (false, queue).

(** while (nav_queue_pos > 0) { clear_anchor(g_queue_pop_head(queue));
    nav_queue_pos--; }  g_queue_pop_head gives NULL on an empty queue,
    which clear_anchor dereferences: [None]. *)
Fixpoint drop_forward (nav_queue_pos : nat) (w : World)
    (queue : list NavigationAnchor) : option (World * list NavigationAnchor) :=
  match nav_queue_pos with
  | O => Some (w, queue)
  | S nav_queue_pos =>
      match queue with
      | [] => None
      | anchor :: queue => drop_forward nav_queue_pos (clear_anchor w anchor) queue
      end
  end.

(** while (g_queue_get_length(queue) > MAX_NAVQUEUE_LENGTH)
      clear_anchor(g_queue_pop_tail(queue));
    Each pass shortens the queue, so [length queue] passes are enough. *)
Fixpoint evict_tail (fuel : nat) (w : World) (queue : list NavigationAnchor)
    : World * list NavigationAnchor :=
  if MAX_NAVQUEUE_LENGTH <? length queue then
    match fuel, last queue with
    | S fuel, Some anchor =>
        evict_tail fuel (clear_anchor w anchor) (take (length queue - 1) queue)
    | _, _ => (w, queue)
    end
  else (w, queue).

Definition navqueue_add_position (doc : GeanyDocument) (pos : Z) (s : NavState)
    : option NavState :=
  match doc_file_name (world s) doc with
  | None => Some s
  | Some file =>
      let '(dup, queue) :=
        queue_pos_matches (world s) (navigation_queue s) (nav_queue_pos s) doc pos in
      if dup then
        Some {| world := world s; navigation_queue := queue;
                nav_queue_pos := nav_queue_pos s; counter := counter s;
                navigation_buttons := navigation_buttons s |}
      else
        '(w, queue) ← drop_forward (nav_queue_pos s) (world s) queue;
        let '(anchor, w, counter) := set_anchor w (counter s) doc file pos in
        let queue := anchor :: queue in
        let '(w, queue) := evict_tail (length queue) w queue in
        Some (adjust_buttons
                {| world := w; navigation_queue := queue; nav_queue_pos := 0;
                   counter := counter;
                   navigation_buttons := navigation_buttons s |})
  end.

Definition goto_anchor (w : World) (anchor : NavigationAnchor)
    : bool * World * NavigationAnchor :=
  let anchor := refresh_anchor w anchor in
  match anchor_doc anchor with
  | None => (false, w, anchor)
  | Some d =>
      let '(moved, w) := editor_goto_pos w d (anchor_pos anchor) in
      (moved, w, anchor)
  end.

(** g_queue_pop_nth: the n-th anchor and the queue without it. *)
Definition g_queue_pop_nth (queue : list NavigationAnchor) (n : nat)
    : option (NavigationAnchor * list NavigationAnchor) :=
  anchor ← queue !! n; Some (anchor, delete n queue).

(** navqueue_go_back after its call of navqueue_add_position: from
    "return if theres no place to go back to" on.  A NULL anchor out of
    the queue would be dereferenced: [None]. *)
Definition go_back_step (s : NavState) : option NavState :=
  let queue := navigation_queue s in
  if bool_decide (queue = []) || (length queue - 1 <=? nav_queue_pos s) then Some s
  else
    prev ← queue !! (nav_queue_pos s + 1);
    let '(moved, w, prev) := goto_anchor (world s) prev in
    let queue := <[nav_queue_pos s + 1 := prev]> queue in
    if moved then
      Some (adjust_buttons
              {| world := w; navigation_queue := queue;
                 nav_queue_pos := nav_queue_pos s + 1; counter := counter s;
                 navigation_buttons := navigation_buttons s |})
    else
      '(anchor, queue) ← g_queue_pop_nth queue (nav_queue_pos s + 1);
      Some (adjust_buttons
              {| world := clear_anchor w anchor; navigation_queue := queue;
                 nav_queue_pos := nav_queue_pos s; counter := counter s;
                 navigation_buttons := navigation_buttons s |}).

(** navqueue_go_back before that: the current position is added; with
    no document open there is only a warning. *)
Definition go_back_record (s : NavState) : option NavState :=
  match document_get_current (world s) with
  | Some doc => navqueue_add_position doc (sci_get_current_position (world s) doc) s
  | None => Some s
  end.

Definition navqueue_go_back (s : NavState) : option NavState :=
  s ← go_back_record s; go_back_step s.

Definition navqueue_go_forward (s : NavState) : option NavState :=
  let queue := navigation_queue s in
  if (nav_queue_pos s <? 1) || (length queue <=? nav_queue_pos s) then Some s
  else
    next ← queue !! (nav_queue_pos s - 1);
    let '(moved, w, next) := goto_anchor (world s) next in
    let queue := <[nav_queue_pos s - 1 := next]> queue in
    if moved then
      Some (adjust_buttons
              {| world := w; navigation_queue := queue;
                 nav_queue_pos := nav_queue_pos s - 1; counter := counter s;
                 navigation_buttons := navigation_buttons s |})
    else
      '(anchor, queue) ← g_queue_pop_nth queue (nav_queue_pos s - 1);
      Some (adjust_buttons
              {| world := clear_anchor w anchor; navigation_queue := queue;
                 nav_queue_pos := nav_queue_pos s; counter := counter s;
                 navigation_buttons := navigation_buttons s |}).

Definition find_by_filename (a : NavigationAnchor) (b : string) : Z :=
  if utils_str_equal (Some (anchor_file a)) (Some b) then 0 else 1.

(** g_queue_find_custom: the first link whose data compares as 0, given
    by its index and its data. *)
Definition g_queue_find_custom (queue : list NavigationAnchor) (data : string)
    (func : NavigationAnchor → string → Z) : option (nat * NavigationAnchor) :=
  list_find (λ a, func a data = 0%Z) queue.

(** while ((match = g_queue_find_custom(queue, filename, find_by_filename)))
    { clear_anchor(match->data); g_queue_delete_link(queue, match); }
    Each pass shortens the queue, so [length queue] passes are enough. *)
Fixpoint remove_file_loop (fuel : nat) (filename : string) (w : World)
    (queue : list NavigationAnchor) : World * list NavigationAnchor :=
  match fuel, g_queue_find_custom queue filename find_by_filename with
  | S fuel, Some (i, anchor) =>
      remove_file_loop fuel filename (clear_anchor w anchor) (delete i queue)
  | _, _ => (w, queue)
  end.

Definition navqueue_remove_file (filename : option string) (s : NavState) : NavState :=
  match filename with
  | None => s
  | Some filename =>
      let '(w, queue) :=
        remove_file_loop (length (navigation_queue s)) filename (world s)
          (navigation_queue s) in
      adjust_buttons
        {| world := w; navigation_queue := queue;
           nav_queue_pos :=
             if length queue <=? nav_queue_pos s then 0 else nav_queue_pos s;
           counter := counter s;
           navigation_buttons := navigation_buttons s |}
  end.

(** The two affordances as section 4.5 of the specification words them,
    to be compared with what adjust_buttons tells the toolbar. *)
Definition can_go_back (s : NavState) : bool :=
  bool_decide (2 ≤ length (navigation_queue s)
               ∧ nav_queue_pos s < length (navigation_queue s) - 1).

Definition can_go_forward (s : NavState) : bool :=
  bool_decide (2 ≤ length (navigation_queue s) ∧ 0 < nav_queue_pos s).

(** What every operation keeps, once navqueue_init has run: the queue is
    within its bound, the cursor does not pass the end of the queue, and
    the buttons show the two affordances. *)
Definition session_inv (s : NavState) : Prop :=
  length (navigation_queue s) ≤ MAX_NAVQUEUE_LENGTH
  ∧ nav_queue_pos s ≤ length (navigation_queue s)
  ∧ navigation_buttons s = (can_go_back s, can_go_forward s).

(** Ids are not reused: the counter has counted up from 0 to at most [n],
    and the anchors of the queue carry ids it has given, or 0. *)
Definition ids_within (n : Z) (s : NavState) : Prop :=
  (0 <= counter s <= n)%Z
  ∧ Forall (λ a, (0 <= anchor_id a <= counter s)%Z) (navigation_queue s).

(** What the fast path of refresh_anchor relies on: the document is
    still there under its name and, unless the id is 0, the offset still
    carries it. *)
Definition still_tagged (doc : GeanyDocument) (file : string) (id pos : Z) (w : World)
    : Prop :=
  doc_is_valid w doc = true
  ∧ doc_file_name w doc = Some file
  ∧ (id ≠ 0%Z → sci_indicator_value_at w doc pos = id).

(** ** Sessions: the public operations in any order

    Between two calls the rest of the editor does what it likes to the
    documents (edits, closes, reopens): [Elsewhere] replaces the world. *)
Inductive command : Type :=
  | AddPosition (doc : GeanyDocument) (pos : Z)
  | GoBack
  | GoForward
  | RemoveFile (filename : option string)
  | Elsewhere (w : World).

Definition step (c : command) (s : NavState) : option NavState :=
  match c with
  | AddPosition doc pos => navqueue_add_position doc pos s
  | GoBack => navqueue_go_back s
  | GoForward => navqueue_go_forward s
  | RemoveFile filename => Some (navqueue_remove_file filename s)
  | Elsewhere w =>
      Some {| world := w; navigation_queue := navigation_queue s;
              nav_queue_pos := nav_queue_pos s; counter := counter s;
              navigation_buttons := navigation_buttons s |}
  end.

Fixpoint run (cs : list command) (s : NavState) : option NavState :=
  match cs with
  | [] => Some s
  | c :: cs => s ← step c s; run cs s
  end.

(** ** The rest of navqueue.c *)

(** navqueue_free: while (! g_queue_is_empty(queue))
      g_free(g_queue_pop_tail(queue));
    The anchors are freed as they are; clear_anchor is not called.
    Each pass shortens the queue, so [length queue] passes are enough. *)
Fixpoint free_loop (fuel : nat) (queue : list NavigationAnchor)
    : list NavigationAnchor :=
  if bool_decide (queue = []) then queue
  else
    match fuel, last queue with
    | S fuel, Some _ => free_loop fuel (take (length queue - 1) queue)
    | _, _ => queue
    end.

Definition navqueue_free (s : NavState) : NavState :=
  {| world := world s;
     navigation_queue := free_loop (length (navigation_queue s)) (navigation_queue s);
     nav_queue_pos := nav_queue_pos s; counter := counter s;
     navigation_buttons := navigation_buttons s |}.

(** navqueue_goto_line.  [sci_get_position_from_line] is the wrapper of
    sciwrappers.c, on doc->editor->sci; its result is stored into the
    [gint] [pos].  The three g_return_val_if_fail give FALSE and leave
    everything.  The result is what editor_goto_pos returns, with the
    state. *)
Definition navqueue_goto_line
    (sci_get_position_from_line : World → GeanyDocument → Z → Z)
    (old_doc new_doc : option GeanyDocument) (line : Z) (s : NavState)
    : option (bool * NavState) :=
  if negb (match old_doc with
           | None => true
           | Some old_doc => doc_is_valid (world s) old_doc
           end)
  then Some (false, s)
  else
    match new_doc with
    | None => Some (false, s)
    | Some new_doc =>
        if negb (doc_is_valid (world s) new_doc) then Some (false, s)
        else if negb (1 <=? line)%Z then Some (false, s)
        else
          let pos := to_gint (sci_get_position_from_line (world s) new_doc (line - 1)%Z) in
          s ← match old_doc with
              | Some old_doc =>
                  navqueue_add_position old_doc
                    (sci_get_current_position (world s) old_doc) s
              | None => Some s
              end;
          s ← navqueue_add_position new_doc pos s;
          let '(moved, w) := editor_goto_pos (world s) new_doc pos in
          Some (moved,
                {| world := w; navigation_queue := navigation_queue s;
                   nav_queue_pos := nav_queue_pos s; counter := counter s;
                   navigation_buttons := navigation_buttons s |})
    end.

(** ** Further invariants *)

(** The ids of two anchors, the first nearer to the head of the queue:
    unless one of them is 0, the nearer one is the greater. *)
Definition newer_id (a b : NavigationAnchor) : Prop :=
  anchor_id a ≠ 0%Z → anchor_id b ≠ 0%Z → (anchor_id b < anchor_id a)%Z.

Definition ids_decrease (queue : list NavigationAnchor) : Prop :=
  ∀ i j a b, i < j → queue !! i = Some a → queue !! j = Some b → newer_id a b.

End Navqueue.

(** The ranges of an indicator over a text of [len] units, as the scan of
    refresh_anchor walks them: from an offset in the text, the end of the
    range is further on and not beyond the text, and the units up to it
    carry one value. *)
Definition ranges_ok (value_at range_end : Z → Z) (len : Z) : Prop :=
  (len <= 2147483647)%Z
  ∧ ∀ pos, (0 <= pos < len)%Z →
      (pos < range_end pos <= len)%Z
      ∧ ∀ q, (pos <= q < range_end pos)%Z → value_at q = value_at pos.

(** ** A small editor

    An implementation of [Editor] to run the queue on: a documents array
    whose entries carry the navigation indicator as the value of every
    text unit.  The end of a range is the first offset after [pos] with
    another value, or the end of the text, as Scintilla reports it. *)
Module Model.

Record document : Type := {
  is_valid : bool;
  file_name : option string;
  indicator : Z → Z;
  text_length : Z;
  current_position : Z;
}.

Record editor_state : Type := {
  documents : nat → document;
  documents_len : nat;
  current : option nat;
}.

Definition with_document (w : editor_state) (d : nat) (f : document → document) : editor_state :=
  {| documents := λ i, if decide (i = d) then f (documents w i) else documents w i;
     documents_len := documents_len w;
     current := current w |}.

Definition set_indicator (pos value : Z) (doc : document) : document :=
  {| is_valid := is_valid doc; file_name := file_name doc;
     indicator := λ q, if decide (q = pos) then value else indicator doc q;
     text_length := text_length doc;
     current_position := current_position doc |}.

Fixpoint range_end (fuel : nat) (ind : Z → Z) (value pos : Z) : Z :=
  match fuel with
  | O => pos
  | S fuel => if (ind pos =? value)%Z then range_end fuel ind value (pos + 1) else pos
  end.

Definition indicator_end (doc : document) (pos : Z) : Z :=
  if (pos <? 0)%Z || (text_length doc <=? pos)%Z then text_length doc
  else range_end (Z.to_nat (text_length doc - pos - 1)) (indicator doc)
         (indicator doc pos) (pos + 1).

Definition find_by_filename (w : editor_state) (name : string) : option nat :=
  fst <$> list_find (λ i, is_valid (documents w i) = true
                          ∧ file_name (documents w i) = Some name)
            (seq 0 (documents_len w)).

(** editor_goto_pos refuses a negative position; otherwise it moves the
    caret and shows the document. *)
Definition goto_pos (w : editor_state) (d : nat) (pos : Z) : bool * editor_state :=
  if (pos <? 0)%Z then (false, w)
  else
    (true,
     {| documents := λ i,
          if decide (i = d) then
            {| is_valid := is_valid (documents w i);
               file_name := file_name (documents w i);
               indicator := indicator (documents w i);
               text_length := text_length (documents w i);
               current_position := pos |}
          else documents w i;
        documents_len := documents_len w;
        current := Some d |}).

#[export] Instance editor : Editor := {|
  World := editor_state;
  GeanyDocument := nat;
  doc_is_valid w d := is_valid (documents w d);
  doc_file_name w d := file_name (documents w d);
  document_find_by_filename := find_by_filename;
  document_get_current := current;
  sci_indicator_value_at w d pos := indicator (documents w d) pos;
  sci_indicator_end w d pos := indicator_end (documents w d) pos;
  sci_indicator_fill w d value pos := with_document w d (set_indicator pos value);
  sci_indicator_clear w d pos := with_document w d (set_indicator pos 0);
  sci_get_current_position w d := current_position (documents w d);
  editor_goto_pos := goto_pos;
|}.

(** Two open files of 100 units each, nothing tagged; the caret is in
    the second one, at offset 5. *)
Definition blank (name : string) (pos : Z) : document :=
  {| is_valid := true; file_name := Some name; indicator := λ _, 0%Z;
     text_length := 100; current_position := pos |}.

(** A closed document: the structure is zeroed. *)
Definition closed : document :=
  {| is_valid := false; file_name := None; indicator := λ _, 0%Z;
     text_length := 0; current_position := 0 |}.

Definition two_files : editor_state :=
  {| documents := λ i, match i with
                       | 0 => blank "a.c" 0
                       | 1 => blank "b.c" 5
                       | _ => closed
                       end;
     documents_len := 2;
     current := Some 1 |}.

(** The same two files once the session
    [AddPosition 0 10; AddPosition 1 5] has tagged them. *)
Definition tagged (name : string) (pos id caret : Z) : document :=
  {| is_valid := true; file_name := Some name;
     indicator := λ q, if decide (q = pos) then id else 0%Z;
     text_length := 100; current_position := caret |}.

Definition two_tagged_files (shown : nat) : editor_state :=
  {| documents := λ i, match i with
                       | 0 => tagged "a.c" 10 1 10
                       | 1 => tagged "b.c" 5 2 5
                       | _ => closed
                       end;
     documents_len := 2;
     current := Some shown |}.

(** "b.c" has been closed since; "a.c" is shown, with its tag. *)
Definition b_closed : editor_state :=
  {| documents := λ i, match i with
                       | 0 => tagged "a.c" 10 1 10
                       | _ => closed
                       end;
     documents_len := 2;
     current := Some 0 |}.

(** "a.c" has been reloaded since, which lost its tag; "b.c" is shown. *)
Definition a_reloaded : editor_state :=
  {| documents := λ i, match i with
                       | 0 => blank "a.c" 0
                       | 1 => tagged "b.c" 5 2 5
                       | _ => closed
                       end;
     documents_len := 2;
     current := Some 1 |}.

Definition anchor_a (id : Z) : NavigationAnchor :=
  {| anchor_file := "a.c"; anchor_doc := Some 0; anchor_id := id; anchor_pos := 10 |}.

Definition anchor_b : NavigationAnchor :=
  {| anchor_file := "b.c"; anchor_doc := Some 1; anchor_id := 2; anchor_pos := 5 |}.

(** The queue of that session over a world, with the cursor on the
    [cursor]-th entry and [id] as the id of the older anchor. *)
Definition visited (w : editor_state) (cursor : nat) (id : Z) : NavState :=
  {| world := w; navigation_queue := [anchor_b; anchor_a id];
     nav_queue_pos := cursor; counter := 2;
     navigation_buttons := (bool_decide (cursor = 0), bool_decide (cursor ≠ 0)) |}.

End Model.

(** * Properties *)

(** ** Machine integers *)

Lemma to_gint_range z : (-2147483648 <= to_gint z <= 2147483647)%Z.
Proof.
  unfold to_gint.
  pose proof (Z.mod_pos_bound (z + 2147483648) 4294967296). lia.
Qed.

Lemma to_gint_id z : (-2147483648 <= z <= 2147483647)%Z → to_gint z = z.
Proof. unfold to_gint. intros ?. rewrite Z.mod_small; lia. Qed.

(** ** The scan *)

Section ScanFacts.
Variables (value_at range_end : Z → Z) (id : Z).

Local Abbreviation exec := (scan_exec value_at range_end id).
Local Abbreviation unroll := (scan_unroll value_at range_end id).

Lemma scan_exec_deterministic pos r1 r2 : exec pos r1 → exec pos r2 → r1 = r2.
Proof.
  induction 1; inversion 1; subst; try done; try lia.
  by apply IHscan_exec.
Qed.

(** [2^n] passes either leave the loop, or reach the continuation at an
    offset at least [2^n] further on. *)
Lemma scan_unroll_exec n again pos :
  exec pos (unroll n again pos)
  ∨ ∃ pos', (pos + 2 ^ Z.of_nat n <= pos' <= 2147483647)%Z
            ∧ unroll n again pos = again pos'
            ∧ ∀ r, exec pos' r → exec pos r.
Proof.
  revert again pos. induction n as [|n IH]; intros again pos.
  - cbn [scan_unroll]. unfold scan_body.
    destruct (Z.eqb_spec (value_at pos) id) as [Hid|Hid].
    { left. by constructor. }
    destruct (Z.gtb_spec (to_gint (range_end pos)) pos) as [Hgt|Hle].
    + right. exists (to_gint (range_end pos)).
      pose proof (to_gint_range (range_end pos)).
      split; [change (2 ^ Z.of_nat 0)%Z with 1%Z; lia|].
      split; [done|]. intros r Hr. apply scan_exec_next; [done|lia|done].
    + left. by constructor.
  - cbn [scan_unroll].
    destruct (IH (unroll n again) pos) as [Hdone|(p1 & Hp1 & Heq1 & Hback1)].
    { by left. }
    rewrite Heq1.
    destruct (IH again p1) as [Hdone|(p2 & Hp2 & Heq2 & Hback2)].
    { left. by apply Hback1. }
    right. exists p2. split; [|split; [done|auto]].
    replace (2 ^ Z.of_nat (S n))%Z with (2 ^ Z.of_nat n + 2 ^ Z.of_nat n)%Z; [lia|].
    rewrite Nat2Z.inj_succ, Z.pow_succ_r; lia.
Qed.

(** From a [gint] offset that is not negative, [2^32] passes leave the
    loop. *)
Lemma indicator_scan_exec :
  exec 0 (indicator_scan value_at range_end id).
Proof.
  unfold indicator_scan.
  destruct (scan_unroll_exec 32 (λ _, NotFound) 0) as [H|(p & Hp & _)]; [done|].
  change (2 ^ Z.of_nat 32)%Z with 4294967296%Z in Hp. lia.
Qed.

Lemma scan_exec_found_value pos r :
  exec pos r → ∀ q, r = Found q → value_at q = id.
Proof. induction 1; intros q Hq; simplify_eq; auto. Qed.

End ScanFacts.

(** The 2^32-fold unrolling is not something to unfold inside a proof. *)
#[global] Opaque indicator_scan.

(** ** Refreshing an anchor *)

Section RefreshFacts.
Context {E : Editor}.
Implicit Types (w : World) (a anchor : NavigationAnchor) (d : GeanyDocument).

Lemma refresh_anchor_file w a :
  anchor_file (refresh_anchor w a) = anchor_file a.
Proof. unfold refresh_anchor. repeat case_match; done. Qed.

(** Refresh keeps the id or zeroes it. *)
Lemma refresh_anchor_id w a :
  anchor_id (refresh_anchor w a) = anchor_id a ∨ anchor_id (refresh_anchor w a) = 0%Z.
Proof. unfold refresh_anchor. repeat case_match; auto. Qed.

Lemma refresh_anchor_id_0 w a :
  anchor_id a = 0%Z → anchor_id (refresh_anchor w a) = 0%Z.
Proof. intros H. destruct (refresh_anchor_id w a); congruence. Qed.

Lemma refresh_anchor_doc w a :
  anchor_doc (refresh_anchor w a)
  = if negb (DOC_VALID w (anchor_doc a))
       || negb (utils_str_equal (anchor_doc a ≫= doc_file_name w)
                                (Some (anchor_file a)))
    then document_find_by_filename w (anchor_file a) else anchor_doc a.
Proof. unfold refresh_anchor. repeat case_match; done. Qed.

(** What the slow path leaves in the anchor, from the outcome of the scan. *)
Lemma refresh_anchor_slow w a d :
  anchor_doc (refresh_anchor w a) = Some d →
  anchor_id a ≠ 0%Z →
  sci_indicator_value_at w d (anchor_pos a) ≠ anchor_id a →
  match indicator_scan (sci_indicator_value_at w d) (sci_indicator_end w d)
          (anchor_id a) with
  | Found pos =>
      anchor_pos (refresh_anchor w a) = pos
      ∧ anchor_id (refresh_anchor w a) = anchor_id a
  | NotFound =>
      anchor_id (refresh_anchor w a) = 0%Z
      ∧ anchor_pos (refresh_anchor w a) = anchor_pos a
  end.
Proof.
  rewrite refresh_anchor_doc. intros Hdoc Hid Hv.
  unfold refresh_anchor. rewrite Hdoc. cbn [anchor_id anchor_pos].
  destruct (Z.eqb_spec (anchor_id a) 0); [done|].
  destruct (Z.eqb_spec (sci_indicator_value_at w d (anchor_pos a)) (anchor_id a)); [done|].
  destruct (indicator_scan (sci_indicator_value_at w d) (sci_indicator_end w d)
              (anchor_id a)); done.
Qed.

(** Without a document, or with the id 0, refresh leaves id and offset. *)
Lemma refresh_anchor_untracked w a :
  anchor_doc (refresh_anchor w a) = None ∨ anchor_id a = 0%Z →
  anchor_id (refresh_anchor w a) = anchor_id a
  ∧ anchor_pos (refresh_anchor w a) = anchor_pos a.
Proof.
  rewrite refresh_anchor_doc. unfold refresh_anchor.
  destruct (if _ || _ then _ else _) as [d|]; [|done].
  intros [?| ->]; [done|]. done.
Qed.

(** The fast path: the offset still carries the id. *)
Lemma refresh_anchor_fast w a d :
  anchor_doc (refresh_anchor w a) = Some d →
  sci_indicator_value_at w d (anchor_pos a) = anchor_id a →
  anchor_id (refresh_anchor w a) = anchor_id a
  ∧ anchor_pos (refresh_anchor w a) = anchor_pos a.
Proof.
  rewrite refresh_anchor_doc. intros Hdoc Hv.
  unfold refresh_anchor. rewrite Hdoc. cbn [anchor_id anchor_pos].
  destruct (Z.eqb_spec (anchor_id a) 0); [done|].
  rewrite Hv, Z.eqb_refl. done.
Qed.

(** After a refresh, the offset carries the id unless the id is 0 or no
    document was found. *)
Lemma refresh_anchor_tagged w a d :
  anchor_doc (refresh_anchor w a) = Some d →
  anchor_id (refresh_anchor w a) ≠ 0%Z →
  sci_indicator_value_at w d (anchor_pos (refresh_anchor w a))
  = anchor_id (refresh_anchor w a).
Proof.
  intros Hdoc Hid.
  destruct (decide (anchor_id a = 0%Z)) as [H0|H0].
  { by apply (refresh_anchor_id_0 w) in H0. }
  destruct (decide (sci_indicator_value_at w d (anchor_pos a) = anchor_id a)) as [Hv|Hv].
  { destruct (refresh_anchor_fast w a d Hdoc Hv) as [-> ->]. done. }
  pose proof (refresh_anchor_slow w a d Hdoc H0 Hv) as Hslow.
  pose proof (indicator_scan_exec (sci_indicator_value_at w d) (sci_indicator_end w d)
                (anchor_id a)) as Hexec.
  destruct (indicator_scan (sci_indicator_value_at w d) (sci_indicator_end w d)
              (anchor_id a)) as [pos|] eqn:Hscan.
  - destruct Hslow as [-> ->]. by eapply scan_exec_found_value.
  - by destruct Hslow.
Qed.

(** The document a refresh ends with is found again by the next one. *)
Lemma refresh_anchor_doc_stable w a :
  anchor_doc (refresh_anchor w (refresh_anchor w a)) = anchor_doc (refresh_anchor w a).
Proof.
  rewrite (refresh_anchor_doc w (refresh_anchor w a)), refresh_anchor_file.
  rewrite (refresh_anchor_doc w a).
  destruct (negb (DOC_VALID w (anchor_doc a)) || _) eqn:Hold.
  - by case_match.
  - by rewrite Hold.
Qed.

Lemma anchor_eq a b :
  anchor_file a = anchor_file b → anchor_doc a = anchor_doc b →
  anchor_id a = anchor_id b → anchor_pos a = anchor_pos b → a = b.
Proof. destruct a, b; cbn; congruence. Qed.

Lemma refresh_anchor_idem w a :
  refresh_anchor w (refresh_anchor w a) = refresh_anchor w a.
Proof.
  pose proof (refresh_anchor_doc_stable w a) as Hdoc.
  assert (anchor_id (refresh_anchor w (refresh_anchor w a)) = anchor_id (refresh_anchor w a)
          ∧ anchor_pos (refresh_anchor w (refresh_anchor w a))
            = anchor_pos (refresh_anchor w a)) as [??].
  { destruct (anchor_doc (refresh_anchor w a)) as [d|] eqn:Hd.
    - destruct (decide (anchor_id (refresh_anchor w a) = 0%Z)) as [H0|H0].
      + apply refresh_anchor_untracked. by right.
      + apply (refresh_anchor_fast _ _ d); [done|]. by apply refresh_anchor_tagged.
    - apply refresh_anchor_untracked. by left. }
  apply anchor_eq; [by rewrite !refresh_anchor_file|done..].
Qed.

End RefreshFacts.

(** ** The queue primitives and the loops over the queue *)

Section QueueFacts.
Context {E : Editor}.
Implicit Types (w : World) (a anchor : NavigationAnchor) (d : GeanyDocument).
Implicit Types (q queue : list NavigationAnchor) (s : NavState).

Lemma adjust_buttons_told s :
  navigation_buttons (adjust_buttons s) = (can_go_back s, can_go_forward s).
Proof.
  unfold adjust_buttons, can_go_back, can_go_forward.
  destruct (Nat.ltb_spec (length (navigation_queue s)) 2);
    [|destruct (Nat.eqb_spec (nav_queue_pos s) 0);
      [|destruct (Nat.ltb_spec (nav_queue_pos s) (length (navigation_queue s) - 1))]];
    cbn [navigation_buttons]; f_equal; symmetry;
    (apply bool_decide_eq_true; lia) || (apply bool_decide_eq_false; lia).
Qed.

Lemma adjust_buttons_frame s :
  world (adjust_buttons s) = world s
  ∧ navigation_queue (adjust_buttons s) = navigation_queue s
  ∧ nav_queue_pos (adjust_buttons s) = nav_queue_pos s
  ∧ counter (adjust_buttons s) = counter s.
Proof. unfold adjust_buttons. repeat case_match; done. Qed.

Lemma drop_forward_inv n w q w' q' :
  drop_forward n w q = Some (w', q') → n ≤ length q ∧ q' = drop n q.
Proof.
  revert w q. induction n as [|n IH]; intros w q; cbn.
  - intros [= <- <-]. split; [lia|done].
  - destruct q as [|a q]; [done|]. intros [??]%IH. cbn. split; [lia|done].
Qed.

Lemma drop_forward_total n w q :
  n ≤ length q → ∃ w', drop_forward n w q = Some (w', drop n q).
Proof.
  revert w q. induction n as [|n IH]; intros w q Hn; cbn.
  - by exists w.
  - destruct q as [|a q]; cbn in Hn; [lia|]. apply IH. lia.
Qed.

Lemma evict_tail_queue fuel w q :
  length q ≤ fuel + MAX_NAVQUEUE_LENGTH →
  (evict_tail fuel w q).2 = take MAX_NAVQUEUE_LENGTH q.
Proof.
  revert w q. induction fuel as [|fuel IH]; intros w q Hlen.
  - cbn [evict_tail]. destruct (Nat.ltb_spec MAX_NAVQUEUE_LENGTH (length q)); [lia|].
    cbn. symmetry. by apply take_ge.
  - cbn [evict_tail]. destruct (Nat.ltb_spec MAX_NAVQUEUE_LENGTH (length q)) as [Hgt|Hle].
    + destruct (last q) as [a|] eqn:Hlast.
      * rewrite IH by (rewrite length_take; lia).
        rewrite take_take. f_equal. lia.
      * apply last_None in Hlast. subst q. cbn in Hgt. lia.
    + cbn. symmetry. by apply take_ge.
Qed.

Lemma queue_pos_matches_inv w q n d p dup q' :
  queue_pos_matches w q n d p = (dup, q') →
  (dup = false ∧ q' = q)
  ∨ ∃ a, q !! n = Some a
         ∧ Some (anchor_file a) = doc_file_name w d
         ∧ dup = bool_decide (anchor_pos (refresh_anchor w a) = p)
         ∧ q' = <[n := refresh_anchor w a]> q.
Proof.
  unfold queue_pos_matches.
  destruct (n <? length q); [|intros [= <- <-]; by left].
  destruct (q !! n) as [a|] eqn:Hn; [|intros [= <- <-]; by left].
  unfold utils_str_equal. case_bool_decide as Hf; [|intros [= <- <-]; by left].
  intros [= <- <-]. right. by exists a.
Qed.

Lemma queue_pos_matches_length w q n d p :
  length (queue_pos_matches w q n d p).2 = length q.
Proof.
  destruct (queue_pos_matches w q n d p) as [dup q'] eqn:H.
  apply queue_pos_matches_inv in H as [[_ ->]|(a & _ & _ & _ & ->)]; [done|].
  apply length_insert.
Qed.

(** The matching test on the queue it has just refreshed gives the same
    answer and the same queue. *)
Lemma queue_pos_matches_again w q n d p a :
  q !! n = Some a →
  Some (anchor_file a) = doc_file_name w d →
  queue_pos_matches w (<[n := refresh_anchor w a]> q) n d p
  = (bool_decide (anchor_pos (refresh_anchor w a) = p), <[n := refresh_anchor w a]> q).
Proof.
  intros Ha Hfile. pose proof (lookup_lt_Some _ _ _ Ha) as Hn.
  unfold queue_pos_matches. rewrite length_insert.
  destruct (Nat.ltb_spec n (length q)); [|lia].
  rewrite list_lookup_insert_eq by done.
  rewrite refresh_anchor_file, refresh_anchor_idem, list_insert_insert_eq.
  unfold utils_str_equal. by rewrite bool_decide_eq_true_2.
Qed.

(** The loop of navqueue_remove_file keeps exactly the anchors of the
    other files, in their order. *)
Lemma remove_file_loop_queue fuel filename w q :
  length q ≤ fuel →
  (remove_file_loop fuel filename w q).2 = filter (λ a, anchor_file a ≠ filename) q.
Proof.
  revert w q. induction fuel as [|fuel IH]; intros w q Hlen.
  { destruct q; [done|cbn in Hlen; lia]. }
  cbn [remove_file_loop]. unfold g_queue_find_custom.
  destruct (list_find _ q) as [[i a]|] eqn:Hfind.
  - apply list_find_Some in Hfind as (Hi & Ha & Hbefore).
    rewrite IH.
    2:{ rewrite length_delete by eauto. apply lookup_lt_Some in Hi. lia. }
    rewrite <- (take_drop_middle q i a Hi) at 2.
    rewrite delete_take_drop, !filter_app. f_equal.
    rewrite filter_cons_False; [done|].
    unfold find_by_filename, utils_str_equal in Ha.
    case_bool_decide; [naive_solver|done].
  - apply list_find_None in Hfind. cbn.
    induction Hfind as [|a q Ha Hq IHq]; [done|].
    rewrite filter_cons_True.
    + f_equal. apply IHq. cbn in Hlen. lia.
    + unfold find_by_filename, utils_str_equal in Ha.
      case_bool_decide; [done|]. naive_solver.
Qed.

End QueueFacts.

(** ** The public operations *)

Section OperationFacts.
Context {E : Editor}.
Implicit Types (w : World) (a anchor : NavigationAnchor) (d doc : GeanyDocument).
Implicit Types (q queue : list NavigationAnchor) (s : NavState).

(** navqueue_add_position returns early, for a document without a file
    name or for a position the entry under the cursor matches, or it
    pushes: the entries before the cursor are dropped, the new anchor is
    at the head and the tail is cut at [MAX_NAVQUEUE_LENGTH]. *)
Lemma add_position_inv doc pos s s' :
  navqueue_add_position doc pos s = Some s' →
  let tested := queue_pos_matches (world s) (navigation_queue s)
                  (nav_queue_pos s) doc pos in
  (doc_file_name (world s) doc = None ∧ s' = s)
  ∨ (is_Some (doc_file_name (world s) doc)
     ∧ tested.1 = true
     ∧ s' = {| world := world s; navigation_queue := tested.2;
               nav_queue_pos := nav_queue_pos s; counter := counter s;
               navigation_buttons := navigation_buttons s |})
  ∨ ∃ file w1,
      let pushed :=
        {| anchor_file := file; anchor_doc := Some doc;
           anchor_id := to_gint (counter s + 1); anchor_pos := pos |}
        :: drop (nav_queue_pos s) tested.2 in
      doc_file_name (world s) doc = Some file
      ∧ tested.1 = false
      ∧ nav_queue_pos s ≤ length (navigation_queue s)
      ∧ drop_forward (nav_queue_pos s) (world s) tested.2
        = Some (w1, drop (nav_queue_pos s) tested.2)
      ∧ world s'
        = (evict_tail (length pushed)
             (sci_indicator_fill w1 doc (to_gint (counter s + 1)) pos) pushed).1
      ∧ navigation_queue s' = take MAX_NAVQUEUE_LENGTH pushed
      ∧ nav_queue_pos s' = 0
      ∧ counter s' = to_gint (counter s + 1)
      ∧ navigation_buttons s' = (can_go_back s', can_go_forward s').
Proof.
  cbn zeta. unfold navqueue_add_position.
  destruct (doc_file_name (world s) doc) as [file|] eqn:Hfile.
  2:{ intros [= <-]. by left. }
  pose proof (queue_pos_matches_length (world s) (navigation_queue s)
                (nav_queue_pos s) doc pos) as Hlen.
  destruct (queue_pos_matches _ _ _ _ _) as [dup q1] eqn:Htest. cbn in Hlen.
  destruct dup.
  { intros [= <-]. right. left. by eauto. }
  destruct (drop_forward (nav_queue_pos s) (world s) q1) as [[w1 q2]|] eqn:Hdrop;
    [|done].
  pose proof Hdrop as [Hk ->]%drop_forward_inv. cbn [mbind option_bind].
  unfold set_anchor. cbn [anchor_id anchor_pos].
  destruct (evict_tail _ _ _) as [w2 q3] eqn:Hevict.
  intros [= <-]. right. right. exists file, w1. cbn [fst snd].
  pose proof (adjust_buttons_frame
    {| world := w2; navigation_queue := q3; nav_queue_pos := 0;
       counter := to_gint (counter s + 1);
       navigation_buttons := navigation_buttons s |}) as (Hw & Hq & Hp & Hc).
  cbn in Hw, Hq, Hp, Hc.
  rewrite Hw, Hq, Hp, Hc, adjust_buttons_told.
  unfold can_go_back, can_go_forward. rewrite Hq, Hp. cbn [navigation_queue nav_queue_pos].
  rewrite Hevict. cbn [fst].
  split_and!; try done; [lia|].
  change q3 with (w2, q3).2. rewrite <- Hevict.
  apply evict_tail_queue. lia.
Qed.

Lemma add_position_total doc pos s :
  nav_queue_pos s ≤ length (navigation_queue s) →
  is_Some (navqueue_add_position doc pos s).
Proof.
  intros Hk. unfold navqueue_add_position.
  destruct (doc_file_name (world s) doc) as [file|]; [|done].
  pose proof (queue_pos_matches_length (world s) (navigation_queue s)
                (nav_queue_pos s) doc pos) as Hlen.
  destruct (queue_pos_matches _ _ _ _ _) as [dup q1]. cbn in Hlen.
  destruct dup; [done|].
  destruct (drop_forward_total (nav_queue_pos s) (world s) q1) as [w1 ->]; [lia|].
  cbn [mbind option_bind]. unfold set_anchor. by destruct (evict_tail _ _ _).
Qed.

(** The two outcomes of the step of navqueue_go_back when there is an
    older entry to go to. *)
Lemma go_back_step_inv s :
  navigation_queue s ≠ [] →
  nav_queue_pos s < length (navigation_queue s) - 1 →
  ∃ prev s',
    navigation_queue s !! (nav_queue_pos s + 1) = Some prev
    ∧ go_back_step s = Some s'
    ∧ navigation_buttons s' = (can_go_back s', can_go_forward s')
    ∧ counter s' = counter s
    ∧ let '(moved, w, prev') := goto_anchor (world s) prev in
      if moved then
        nav_queue_pos s' = nav_queue_pos s + 1
        ∧ navigation_queue s' = <[nav_queue_pos s + 1 := prev']> (navigation_queue s)
        ∧ world s' = w
      else
        nav_queue_pos s' = nav_queue_pos s
        ∧ navigation_queue s' = delete (nav_queue_pos s + 1) (navigation_queue s)
        ∧ world s' = clear_anchor w prev'.
Proof.
  intros Hne Hk. unfold go_back_step.
  rewrite bool_decide_eq_false_2 by done.
  destruct (Nat.leb_spec (length (navigation_queue s) - 1) (nav_queue_pos s)); [lia|].
  cbn [orb].
  destruct (lookup_lt_is_Some_2 (navigation_queue s) (nav_queue_pos s + 1)) as [prev Hprev];
    [lia|].
  exists prev. rewrite Hprev. cbn [mbind option_bind].
  destruct (goto_anchor (world s) prev) as [[moved w] prev'].
  destruct moved.
  - eexists. split; [done|]. split; [done|].
    rewrite adjust_buttons_told.
    destruct (adjust_buttons_frame
      {| world := w;
         navigation_queue := <[nav_queue_pos s + 1 := prev']> (navigation_queue s);
         nav_queue_pos := nav_queue_pos s + 1; counter := counter s;
         navigation_buttons := navigation_buttons s |}) as (Hw & Hq & Hp & Hc).
    unfold can_go_back, can_go_forward. rewrite Hw, Hq, Hp, Hc. done.
  - unfold g_queue_pop_nth.
    rewrite list_lookup_insert_eq by lia. cbn [mbind option_bind].
    eexists. split; [done|]. split; [done|].
    rewrite adjust_buttons_told.
    destruct (adjust_buttons_frame
      {| world := clear_anchor w prev';
         navigation_queue :=
           delete (nav_queue_pos s + 1) (<[nav_queue_pos s + 1 := prev']> (navigation_queue s));
         nav_queue_pos := nav_queue_pos s; counter := counter s;
         navigation_buttons := navigation_buttons s |}) as (Hw & Hq & Hp & Hc).
    unfold can_go_back, can_go_forward. rewrite Hw, Hq, Hp, Hc.
    cbn [world navigation_queue nav_queue_pos counter].
    assert (delete (nav_queue_pos s + 1)
              (<[nav_queue_pos s + 1 := prev']> (navigation_queue s))
            = delete (nav_queue_pos s + 1) (navigation_queue s)) as ->; [|done].
    rewrite !delete_take_drop, take_insert_ge, drop_insert_lt by lia. done.
Qed.

Lemma go_back_step_nowhere s :
  navigation_queue s = [] ∨ length (navigation_queue s) - 1 ≤ nav_queue_pos s →
  go_back_step s = Some s.
Proof.
  intros H. unfold go_back_step.
  destruct H as [->|H]; [done|].
  destruct (Nat.leb_spec (length (navigation_queue s) - 1) (nav_queue_pos s)); [|lia].
  by rewrite orb_true_r.
Qed.

(** The two outcomes of navqueue_go_forward when there is a newer entry
    to go to. *)
Lemma go_forward_inv s :
  1 ≤ nav_queue_pos s < length (navigation_queue s) →
  ∃ next s',
    navigation_queue s !! (nav_queue_pos s - 1) = Some next
    ∧ navqueue_go_forward s = Some s'
    ∧ navigation_buttons s' = (can_go_back s', can_go_forward s')
    ∧ counter s' = counter s
    ∧ let '(moved, w, next') := goto_anchor (world s) next in
      if moved then
        nav_queue_pos s' = nav_queue_pos s - 1
        ∧ navigation_queue s' = <[nav_queue_pos s - 1 := next']> (navigation_queue s)
        ∧ world s' = w
      else
        nav_queue_pos s' = nav_queue_pos s
        ∧ navigation_queue s' = delete (nav_queue_pos s - 1) (navigation_queue s)
        ∧ world s' = clear_anchor w next'.
Proof.
  intros Hk. unfold navqueue_go_forward.
  destruct (Nat.ltb_spec (nav_queue_pos s) 1); [lia|].
  destruct (Nat.leb_spec (length (navigation_queue s)) (nav_queue_pos s)); [lia|].
  cbn [orb].
  destruct (lookup_lt_is_Some_2 (navigation_queue s) (nav_queue_pos s - 1)) as [next Hnext];
    [lia|].
  exists next. rewrite Hnext. cbn [mbind option_bind].
  destruct (goto_anchor (world s) next) as [[moved w] next'].
  destruct moved.
  - eexists. split; [done|]. split; [done|].
    rewrite adjust_buttons_told.
    destruct (adjust_buttons_frame
      {| world := w;
         navigation_queue := <[nav_queue_pos s - 1 := next']> (navigation_queue s);
         nav_queue_pos := nav_queue_pos s - 1; counter := counter s;
         navigation_buttons := navigation_buttons s |}) as (Hw & Hq & Hp & Hc).
    unfold can_go_back, can_go_forward. rewrite Hw, Hq, Hp, Hc. done.
  - unfold g_queue_pop_nth.
    rewrite list_lookup_insert_eq by lia. cbn [mbind option_bind].
    eexists. split; [done|]. split; [done|].
    rewrite adjust_buttons_told.
    destruct (adjust_buttons_frame
      {| world := clear_anchor w next';
         navigation_queue :=
           delete (nav_queue_pos s - 1) (<[nav_queue_pos s - 1 := next']> (navigation_queue s));
         nav_queue_pos := nav_queue_pos s; counter := counter s;
         navigation_buttons := navigation_buttons s |}) as (Hw & Hq & Hp & Hc).
    unfold can_go_back, can_go_forward. rewrite Hw, Hq, Hp, Hc.
    cbn [world navigation_queue nav_queue_pos counter].
    assert (delete (nav_queue_pos s - 1)
              (<[nav_queue_pos s - 1 := next']> (navigation_queue s))
            = delete (nav_queue_pos s - 1) (navigation_queue s)) as ->; [|done].
    rewrite !delete_take_drop, take_insert_ge, drop_insert_lt by lia. done.
Qed.

Lemma go_forward_nowhere s :
  nav_queue_pos s < 1 ∨ length (navigation_queue s) ≤ nav_queue_pos s →
  navqueue_go_forward s = Some s.
Proof.
  intros H. unfold navqueue_go_forward.
  destruct (Nat.ltb_spec (nav_queue_pos s) 1); [done|].
  destruct (Nat.leb_spec (length (navigation_queue s)) (nav_queue_pos s)); [done|lia].
Qed.

Lemma remove_file_inv filename s :
  let s' := navqueue_remove_file (Some filename) s in
  navigation_queue s' = filter (λ a, anchor_file a ≠ filename) (navigation_queue s)
  ∧ nav_queue_pos s'
    = (if decide (nav_queue_pos s < length (navigation_queue s')) then nav_queue_pos s
       else 0)
  ∧ counter s' = counter s
  ∧ navigation_buttons s' = (can_go_back s', can_go_forward s').
Proof.
  cbn zeta. unfold navqueue_remove_file.
  pose proof (remove_file_loop_queue (length (navigation_queue s)) filename (world s)
                (navigation_queue s) (le_n _)) as Hloop.
  destruct (remove_file_loop _ _ _ _) as [w q]. cbn [snd] in Hloop.
  rewrite adjust_buttons_told.
  match goal with |- context [adjust_buttons ?x] =>
    destruct (adjust_buttons_frame x) as (Hw & Hq & Hp & Hc) end.
  unfold can_go_back, can_go_forward. rewrite Hq, Hp, Hc.
  cbn [world navigation_queue nav_queue_pos counter].
  split_and!; try done.
  destruct (Nat.leb_spec (length q) (nav_queue_pos s)); case_decide; done || lia.
Qed.

(** *** The invariant of a session *)

Lemma session_inv_init w : session_inv (navqueue_init w).
Proof.
  unfold session_inv, MAX_NAVQUEUE_LENGTH. cbn. split_and!; [lia|lia|done].
Qed.

Lemma affordances_same s s' :
  length (navigation_queue s') = length (navigation_queue s) →
  nav_queue_pos s' = nav_queue_pos s →
  (can_go_back s', can_go_forward s') = (can_go_back s, can_go_forward s).
Proof. unfold can_go_back, can_go_forward. by intros -> ->. Qed.

Lemma session_inv_add_position doc pos s :
  session_inv s →
  ∃ s', navqueue_add_position doc pos s = Some s' ∧ session_inv s'.
Proof.
  intros (Hmax & Hk & Hb).
  destruct (add_position_total doc pos s Hk) as [s' Hs']. exists s'. split; [done|].
  apply add_position_inv in Hs'
    as [[_ ->]|[(_ & _ & ->)|(f & w1 & _ & _ & _ & _ & _ & Hq & Hp & _ & Hb')]];
    unfold session_inv.
  - done.
  - cbn [navigation_queue nav_queue_pos navigation_buttons].
    rewrite queue_pos_matches_length, Hb. split_and!; [done..|].
    symmetry. apply affordances_same; [|done]. apply queue_pos_matches_length.
  - rewrite Hq, Hp. split_and!; [|lia|done].
    rewrite length_take. lia.
Qed.

Lemma session_inv_go_back_step s :
  session_inv s → ∃ s', go_back_step s = Some s' ∧ session_inv s'.
Proof.
  intros (Hmax & Hk & Hb).
  destruct (decide (navigation_queue s = []
                    ∨ length (navigation_queue s) - 1 ≤ nav_queue_pos s)) as [Hno|Hgo].
  { exists s. by rewrite go_back_step_nowhere. }
  destruct (go_back_step_inv s) as (prev & s' & Hprev & -> & Hb' & _ & Hcase);
    [naive_solver|lia|].
  exists s'. split; [done|]. unfold session_inv.
  destruct (goto_anchor (world s) prev) as [[moved w] prev'].
  destruct moved; destruct Hcase as (Hp & Hq & _); rewrite Hp, Hq.
  - rewrite length_insert. split_and!; [done|lia|done].
  - rewrite length_delete by eauto. split_and!; [lia|lia|done].
Qed.

Lemma session_inv_go_back s :
  session_inv s → ∃ s', navqueue_go_back s = Some s' ∧ session_inv s'.
Proof.
  intros Hs. unfold navqueue_go_back, go_back_record.
  destruct (document_get_current (world s)) as [doc|].
  - destruct (session_inv_add_position doc
                (sci_get_current_position (world s) doc) s Hs) as (s1 & -> & Hs1).
    by apply session_inv_go_back_step.
  - by apply session_inv_go_back_step.
Qed.

Lemma session_inv_go_forward s :
  session_inv s → ∃ s', navqueue_go_forward s = Some s' ∧ session_inv s'.
Proof.
  intros (Hmax & Hk & Hb).
  destruct (decide (nav_queue_pos s < 1
                    ∨ length (navigation_queue s) ≤ nav_queue_pos s)) as [Hno|Hgo].
  { exists s. by rewrite go_forward_nowhere. }
  destruct (go_forward_inv s) as (next & s' & Hnext & -> & Hb' & _ & Hcase); [lia|].
  exists s'. split; [done|]. unfold session_inv.
  destruct (goto_anchor (world s) next) as [[moved w] next'].
  destruct moved; destruct Hcase as (Hp & Hq & _); rewrite Hp, Hq.
  - rewrite length_insert. split_and!; [done|lia|done].
  - rewrite length_delete by eauto. split_and!; [lia|lia|done].
Qed.

Lemma session_inv_remove_file filename s :
  session_inv s → session_inv (navqueue_remove_file filename s).
Proof.
  intros (Hmax & Hk & Hb). destruct filename as [filename|]; [|done].
  destruct (remove_file_inv filename s) as (Hq & Hp & _ & Hb').
  unfold session_inv. rewrite Hp. split_and!; [|case_decide; lia|done].
  rewrite Hq. pose proof (length_filter (λ a, anchor_file a ≠ filename) (navigation_queue s)).
  lia.
Qed.

Lemma session_inv_step c s :
  session_inv s → ∃ s', step c s = Some s' ∧ session_inv s'.
Proof.
  intros Hs. destruct c; cbn [step].
  - by apply session_inv_add_position.
  - by apply session_inv_go_back.
  - by apply session_inv_go_forward.
  - eexists. split; [done|]. by apply session_inv_remove_file.
  - eexists. split; [done|]. done.
Qed.

Lemma session_inv_run cs s :
  session_inv s → ∃ s', run cs s = Some s' ∧ session_inv s'.
Proof.
  revert s. induction cs as [|c cs IH]; intros s Hs; cbn [run].
  - by exists s.
  - destruct (session_inv_step c s Hs) as (s1 & -> & Hs1). by apply IH.
Qed.

(** *** Ids are not reused in a session *)

Lemma goto_anchor_anchor w a : (goto_anchor w a).2 = refresh_anchor w a.
Proof.
  unfold goto_anchor. destruct (anchor_doc (refresh_anchor w a)); [|done].
  by destruct (editor_goto_pos _ _ _).
Qed.

(** A step in either direction refreshes one anchor in place, and may
    then remove it. *)
Lemma go_back_step_queue s s' :
  go_back_step s = Some s' →
  counter s' = counter s
  ∧ (navigation_queue s' = navigation_queue s
     ∨ ∃ i a, navigation_queue s !! i = Some a
              ∧ (navigation_queue s' = <[i := refresh_anchor (world s) a]> (navigation_queue s)
                 ∨ navigation_queue s' = delete i (navigation_queue s))).
Proof.
  intros Hstep.
  destruct (decide (navigation_queue s = []
                    ∨ length (navigation_queue s) - 1 ≤ nav_queue_pos s)) as [Hno|Hgo].
  { rewrite go_back_step_nowhere in Hstep by done. injection Hstep as <-. auto. }
  destruct (go_back_step_inv s) as (prev & s'' & Hprev & Hstep' & _ & Hc & Hcase);
    [tauto|lia|].
  assert (s'' = s') as -> by congruence. split; [done|].
  right. exists (nav_queue_pos s + 1), prev. split; [done|].
  pose proof (goto_anchor_anchor (world s) prev) as Hprev'.
  destruct (goto_anchor (world s) prev) as [[moved w] prev']. cbn in Hprev'. subst prev'.
  destruct moved; destruct Hcase as (_ & -> & _); auto.
Qed.

Lemma go_forward_queue s s' :
  navqueue_go_forward s = Some s' →
  counter s' = counter s
  ∧ (navigation_queue s' = navigation_queue s
     ∨ ∃ i a, navigation_queue s !! i = Some a
              ∧ (navigation_queue s' = <[i := refresh_anchor (world s) a]> (navigation_queue s)
                 ∨ navigation_queue s' = delete i (navigation_queue s))).
Proof.
  intros Hstep.
  destruct (decide (nav_queue_pos s < 1
                    ∨ length (navigation_queue s) ≤ nav_queue_pos s)) as [Hno|Hgo].
  { rewrite go_forward_nowhere in Hstep by done. injection Hstep as <-. auto. }
  destruct (go_forward_inv s) as (next & s'' & Hnext & Hstep' & _ & Hc & Hcase); [lia|].
  assert (s'' = s') as -> by congruence. split; [done|].
  right. exists (nav_queue_pos s - 1), next. split; [done|].
  pose proof (goto_anchor_anchor (world s) next) as Hnext'.
  destruct (goto_anchor (world s) next) as [[moved w] next']. cbn in Hnext'. subst next'.
  destruct moved; destruct Hcase as (_ & -> & _); auto.
Qed.

Lemma ids_within_refreshed n s i a :
  ids_within n s → navigation_queue s !! i = Some a →
  Forall (λ a, (0 <= anchor_id a <= counter s)%Z)
    (<[i := refresh_anchor (world s) a]> (navigation_queue s)).
Proof.
  intros [Hc Hq] Ha. apply Forall_insert; [done|].
  pose proof (Forall_lookup_1 _ _ _ _ Hq Ha) as Hida. cbn in Hida.
  destruct (refresh_anchor_id (world s) a) as [-> | ->]; lia.
Qed.

Lemma ids_within_add_position n doc pos s s' :
  (n < 2147483647)%Z →
  ids_within n s → navqueue_add_position doc pos s = Some s' → ids_within (n + 1) s'.
Proof.
  intros Hn Hs Hadd. pose proof Hs as [Hc Hq].
  assert (Forall (λ a, (0 <= anchor_id a <= counter s)%Z)
            (queue_pos_matches (world s) (navigation_queue s) (nav_queue_pos s)
               doc pos).2) as Htested.
  { destruct (queue_pos_matches _ _ _ _ _) as [dup q1] eqn:Ht. cbn [snd].
    apply queue_pos_matches_inv in Ht as [[_ ->]|(a & Ha & _ & _ & ->)]; [done|].
    by eapply ids_within_refreshed. }
  apply add_position_inv in Hadd
    as [[_ ->]|[(_ & _ & ->)|(file & w1 & _ & _ & _ & _ & _ & Hq' & _ & Hc' & _)]];
    unfold ids_within.
  - split; [lia|done].
  - cbn [counter navigation_queue]. split; [lia|done].
  - rewrite Hq', Hc', to_gint_id by lia. split; [lia|].
    apply Forall_take, Forall_cons. cbn [anchor_id]. split; [lia|].
    apply Forall_drop. eapply Forall_impl; [exact Htested|]. cbn. lia.
Qed.

Lemma ids_within_step n c s s' :
  (n < 2147483647)%Z → ids_within n s → step c s = Some s' → ids_within (n + 1) s'.
Proof.
  intros Hn Hs. pose proof Hs as [Hc Hq].
  assert (∀ s' : NavState,
            counter s' = counter s
            ∧ (navigation_queue s' = navigation_queue s
               ∨ ∃ i a, navigation_queue s !! i = Some a
                        ∧ (navigation_queue s'
                           = <[i := refresh_anchor (world s) a]> (navigation_queue s)
                           ∨ navigation_queue s' = delete i (navigation_queue s))) →
            ids_within (n + 1) s') as Hkept.
  { intros s2 (Hc2 & [Hq2|(i & a & Ha & [Hq2|Hq2])]); unfold ids_within;
      rewrite Hc2, Hq2; (split; [lia|]).
    - done.
    - by eapply ids_within_refreshed.
    - by apply Forall_delete. }
  destruct c; cbn [step].
  - by apply ids_within_add_position.
  - unfold navqueue_go_back, go_back_record.
    destruct (document_get_current (world s)) as [doc|]; cbn [mbind option_bind].
    + destruct (navqueue_add_position doc _ s) as [s1|] eqn:Hadd; [|done].
      cbn [mbind option_bind]. intros Hstep.
      apply ids_within_add_position with (n := n) in Hadd; [|done..].
      apply go_back_step_queue in Hstep.
      destruct Hadd as [Hc1 Hq1].
      destruct Hstep as (Hc2 & [Hq2|(i & a & Ha & [Hq2|Hq2])]); unfold ids_within;
        rewrite Hc2, Hq2; (split; [lia|]).
      * done.
      * by eapply (ids_within_refreshed (n + 1)).
      * by apply Forall_delete.
    + intros Hstep. by apply Hkept, go_back_step_queue.
  - intros Hstep. by apply Hkept, go_forward_queue.
  - intros [= <-]. destruct filename as [filename|].
    + destruct (remove_file_inv filename s) as (Hq' & _ & Hc' & _).
      unfold ids_within. rewrite Hq', Hc'. split; [lia|].
      apply Forall_forall. intros a [_ Ha]%list_elem_of_filter.
      revert a Ha. by apply Forall_forall.
    + cbn [navqueue_remove_file]. split; [lia|done].
  - intros [= <-]. split; [cbn; lia|done].
Qed.

(** In a session of fewer than [2^31 - 1] operations the next id of the
    counter is carried by no anchor of the queue. *)
Lemma session_ids_fresh cs w0 s :
  (Z.of_nat (length cs) < 2147483647)%Z →
  run cs (navqueue_init w0) = Some s →
  Forall (λ a, anchor_id a ≠ to_gint (counter s + 1)) (navigation_queue s).
Proof.
  intros Hlen Hrun.
  assert (∀ cs n s0 s, (n + Z.of_nat (length cs) < 2147483647)%Z →
            ids_within n s0 → run cs s0 = Some s →
            ids_within (n + Z.of_nat (length cs)) s) as Hall.
  { clear. intros cs. induction cs as [|c cs IH]; intros n s0 s Hn Hs0; cbn [run length].
    - intros [= <-]. by rewrite Z.add_0_r.
    - cbn [length] in Hn.
      destruct (step c s0) as [s1|] eqn:Hstep; [|done]. cbn [mbind option_bind].
      intros Hrun. apply ids_within_step with (n := n) in Hstep; [|lia|done].
      replace (n + Z.of_nat (S (length cs)))%Z with (n + 1 + Z.of_nat (length cs))%Z
        by lia.
      apply (IH _ s1); [lia|done..]. }
  destruct (Hall cs 0%Z (navqueue_init w0) s) as [Hc Hq]; [lia| |done|].
  { split; [cbn; lia|constructor]. }
  eapply Forall_impl; [exact Hq|]. cbn. intros a Ha.
  rewrite to_gint_id by lia. lia.
Qed.

End OperationFacts.

(** ** Clearing an anchor, under the laws of the marker substrate *)

Section ClearFacts.
Context {E : Editor} `{!MarkerLaws E}.
Implicit Types (w : World) (a anchor : NavigationAnchor) (d doc : GeanyDocument).
Implicit Types (q queue : list NavigationAnchor) (s : NavState).

(** clear_anchor changes the world by at most one clear, on the unit that
    carries the refreshed id. *)
Lemma clear_anchor_cases w a :
  clear_anchor w a = w
  ∨ ∃ d, anchor_doc (refresh_anchor w a) = Some d
         ∧ sci_indicator_value_at w d (anchor_pos (refresh_anchor w a))
           = anchor_id (refresh_anchor w a)
         ∧ clear_anchor w a = sci_indicator_clear w d (anchor_pos (refresh_anchor w a)).
Proof.
  unfold clear_anchor.
  destruct (anchor_doc (refresh_anchor w a)) as [d|]; [|by left].
  destruct (Z.eqb_spec (sci_indicator_value_at w d (anchor_pos (refresh_anchor w a)))
              (anchor_id (refresh_anchor w a))); [|by left].
  right. by exists d.
Qed.

Lemma clear_anchor_is_valid w a d :
  doc_is_valid (clear_anchor w a) d = doc_is_valid w d.
Proof.
  destruct (clear_anchor_cases w a) as [->|(d' & _ & _ & ->)]; [done|].
  apply is_valid_clear.
Qed.

Lemma clear_anchor_file_name w a d :
  doc_file_name (clear_anchor w a) d = doc_file_name w d.
Proof.
  destruct (clear_anchor_cases w a) as [->|(d' & _ & _ & ->)]; [done|].
  apply file_name_clear.
Qed.

(** A unit keeps its value unless that value is 0 afterwards and was the
    id of the anchor, or 0, before. *)
Lemma clear_anchor_value_at w a d p :
  sci_indicator_value_at (clear_anchor w a) d p = sci_indicator_value_at w d p
  ∨ (sci_indicator_value_at (clear_anchor w a) d p = 0%Z
     ∧ (sci_indicator_value_at w d p = anchor_id a
        ∨ sci_indicator_value_at w d p = 0%Z)).
Proof.
  destruct (clear_anchor_cases w a) as [->|(d' & _ & Hv & ->)]; [by left|].
  rewrite value_at_clear. destruct (decide _) as [[-> ->]|]; [|by left].
  right. split; [done|]. rewrite Hv. apply refresh_anchor_id.
Qed.

Lemma clear_anchor_keeps_tag w a d p id :
  id ≠ 0%Z → id ≠ anchor_id a →
  sci_indicator_value_at (clear_anchor w a) d p = id
  ↔ sci_indicator_value_at w d p = id.
Proof.
  intros H0 Ha.
  destruct (clear_anchor_value_at w a d p) as [->|[-> [->| ->]]]; [done|..];
    split; congruence.
Qed.

Lemma still_tagged_clear_anchor doc file id pos w a :
  (id ≠ 0%Z → anchor_id a ≠ id) →
  still_tagged doc file id pos w → still_tagged doc file id pos (clear_anchor w a).
Proof.
  intros Ha (Hvalid & Hname & Htag). unfold still_tagged.
  rewrite clear_anchor_is_valid, clear_anchor_file_name.
  split_and!; [done..|]. intros H0.
  apply clear_anchor_keeps_tag; auto. intros Heq. by apply Ha.
Qed.

Lemma drop_forward_keeps (P : World → Prop) n w q w' q' :
  (∀ w a, P w → P (clear_anchor w a)) →
  P w → drop_forward n w q = Some (w', q') → P w'.
Proof.
  intros HP. revert w q. induction n as [|n IH]; intros w q Hw; cbn.
  - by intros [= <- _].
  - destruct q as [|a q]; [done|]. apply IH. by apply HP.
Qed.

Lemma evict_tail_keeps (P : World → Prop) (Q : NavigationAnchor → Prop) fuel w a q :
  (∀ w a, Q a → P w → P (clear_anchor w a)) →
  Forall Q q → P w → P (evict_tail fuel w (a :: q)).1.
Proof.
  intros HP. revert w q. induction fuel as [|fuel IH]; intros w q HQ Hw.
  { cbn [evict_tail]. by repeat case_match. }
  cbn [evict_tail].
  destruct (Nat.ltb_spec MAX_NAVQUEUE_LENGTH (length (a :: q))) as [Hlong|]; [|done].
  destruct (last (a :: q)) as [b|] eqn:Hlast; [|done].
  destruct q as [|a' q]; [unfold MAX_NAVQUEUE_LENGTH in Hlong; cbn in Hlong; lia|].
  rewrite last_cons in Hlast.
  destruct (last (a' :: q)) as [b'|] eqn:Hlast'; [|by apply last_None in Hlast'].
  injection Hlast as ->.
  assert (take (length (a :: a' :: q) - 1) (a :: a' :: q)
          = a :: take (length (a' :: q) - 1) (a' :: q)) as ->.
  { cbn [length]. replace (S (S (length q)) - 1) with (S (S (length q) - 1)) by lia.
    done. }
  apply IH.
  - by apply Forall_take.
  - apply HP; [|done]. apply (Forall_forall Q (a' :: q)); [done|].
    apply last_Some in Hlast' as [l' ->]. apply elem_of_app. right. by left.
Qed.

(** An anchor whose document is there under its name, and whose offset
    carries its id unless the id is 0, is left as it is by a refresh. *)
Lemma refresh_anchor_fixed doc file id pos w :
  still_tagged doc file id pos w →
  refresh_anchor w {| anchor_file := file; anchor_doc := Some doc;
                      anchor_id := id; anchor_pos := pos |}
  = {| anchor_file := file; anchor_doc := Some doc; anchor_id := id; anchor_pos := pos |}.
Proof.
  intros (Hvalid & Hname & Htag).
  unfold refresh_anchor, utils_str_equal. cbn. rewrite Hvalid, Hname.
  rewrite bool_decide_eq_true_2 by done. cbn.
  destruct (Z.eqb_spec id 0); [done|].
  rewrite Htag, Z.eqb_refl by done. done.
Qed.

End ClearFacts.

(** ** The small editor keeps the laws of the marker substrate *)

#[export] Instance model_laws : MarkerLaws Model.editor.
Proof.
  split; intros; cbn; unfold Model.with_document, Model.set_indicator; cbn;
    repeat (destruct (decide _); cbn); try done; intuition congruence.
Qed.

(** * The claims *)

Section Claims.
Context {E : Editor}.
Implicit Types (w : World) (a anchor : NavigationAnchor) (d doc : GeanyDocument).
Implicit Types (q queue : list NavigationAnchor) (s : NavState).

(** C6: the slow path of refresh_anchor ends for every anchor and every
    indicator the editor may answer with.  When a document is resolved,
    the id is not 0 and the cached offset no longer carries the id, the
    do-while loop started at offset 0 has exactly one outcome [r], reached
    after finitely many passes: it is left as soon as the end of the
    range, stored in the [gint] [pos], is not beyond the offset it was
    asked for (so at offset 0 already if that end does not advance), and
    then the id of the anchor is set to 0 and its offset kept; or it is
    left where the id is seen, and the anchor gets that offset. *)
Theorem refresh_anchor_scan_terminates w anchor d :
  anchor_doc (refresh_anchor w anchor) = Some d →
  anchor_id anchor ≠ 0%Z →
  sci_indicator_value_at w d (anchor_pos anchor) ≠ anchor_id anchor →
  ∃ r,
    scan_exec (sci_indicator_value_at w d) (sci_indicator_end w d) (anchor_id anchor) 0 r
    ∧ (∀ r', scan_exec (sci_indicator_value_at w d) (sci_indicator_end w d)
               (anchor_id anchor) 0 r' → r' = r)
    ∧ (sci_indicator_value_at w d 0 ≠ anchor_id anchor →
       (to_gint (sci_indicator_end w d 0) <= 0)%Z → r = NotFound)
    ∧ match r with
      | Found pos =>
          sci_indicator_value_at w d pos = anchor_id anchor
          ∧ anchor_pos (refresh_anchor w anchor) = pos
          ∧ anchor_id (refresh_anchor w anchor) = anchor_id anchor
      | NotFound =>
          anchor_id (refresh_anchor w anchor) = 0%Z
          ∧ anchor_pos (refresh_anchor w anchor) = anchor_pos anchor
      end.
Proof.
  intros Hdoc Hid Hv.
  pose proof (refresh_anchor_slow w anchor d Hdoc Hid Hv) as Hslow.
  pose proof (indicator_scan_exec (sci_indicator_value_at w d) (sci_indicator_end w d)
                (anchor_id anchor)) as Hexec.
  exists (indicator_scan (sci_indicator_value_at w d) (sci_indicator_end w d)
            (anchor_id anchor)).
  split; [done|]. split.
  { intros r' Hr'. by eapply scan_exec_deterministic. }
  split.
  { intros H0 Hend. eapply scan_exec_deterministic; [done|]. by constructor. }
  destruct (indicator_scan (sci_indicator_value_at w d) (sci_indicator_end w d)
              (anchor_id anchor)) as [pos|] eqn:Hscan; [|done].
  split; [|done]. by eapply scan_exec_found_value.
Qed.

(** C7: adjust_buttons tells the toolbar exactly the two affordances,
    back when the queue has two entries or more and the cursor is before
    the last one, forward when it has two or more and the cursor is not
    0; and whatever operations a session is made of, the buttons show
    them: with the cursor 0 and two entries or more, back is enabled and
    forward is not, and with fewer than two entries neither is. *)
Theorem buttons_show_affordances cs w0 :
  (∀ s, navigation_buttons (adjust_buttons s) = (can_go_back s, can_go_forward s))
  ∧ ∃ s,
      run cs (navqueue_init w0) = Some s
      ∧ navigation_buttons s = (can_go_back s, can_go_forward s)
      ∧ (nav_queue_pos s = 0 → 2 ≤ length (navigation_queue s) →
         navigation_buttons s = (true, false))
      ∧ (length (navigation_queue s) < 2 → navigation_buttons s = (false, false)).
Proof.
  split; [apply adjust_buttons_told|].
  destruct (session_inv_run cs (navqueue_init w0) (session_inv_init w0))
    as (s & Hrun & _ & _ & Hb).
  exists s. split; [done|]. split; [done|]. rewrite Hb.
  unfold can_go_back, can_go_forward. split.
  - intros -> ?. f_equal; [apply bool_decide_eq_true|apply bool_decide_eq_false]; lia.
  - intros ?. f_equal; apply bool_decide_eq_false; lia.
Qed.

(** C8: navqueue_remove_file on a file name keeps exactly the anchors of
    the other files, in their order, and then puts the cursor to 0 if it
    is not below the new length; the buttons follow. *)
Theorem remove_file_removes_exactly filename s :
  let s' := navqueue_remove_file (Some filename) s in
  navigation_queue s' = filter (λ a, anchor_file a ≠ filename) (navigation_queue s)
  ∧ (∀ a, a ∈ navigation_queue s' ↔ a ∈ navigation_queue s ∧ anchor_file a ≠ filename)
  ∧ nav_queue_pos s'
    = (if decide (nav_queue_pos s < length (navigation_queue s')) then nav_queue_pos s
       else 0)
  ∧ navigation_buttons s' = (can_go_back s', can_go_forward s').
Proof.
  cbn zeta. destruct (remove_file_inv filename s) as (Hq & Hp & _ & Hb).
  split_and!; try done.
  intros a. rewrite Hq, list_elem_of_filter. tauto.
Qed.

(** C3: once navqueue_go_back has added the current position, and there
    is an older entry than the one under the cursor, the step has one of
    two outcomes and no third: the editor moved to that entry, the cursor
    is one further and the queue as long as it was; or the move failed,
    the cursor is where it was and the queue is the same without that
    one entry. *)
Theorem go_back_all_or_nothing s s1 :
  go_back_record s = Some s1 →
  navigation_queue s1 ≠ [] →
  nav_queue_pos s1 < length (navigation_queue s1) - 1 →
  ∃ prev s',
    navigation_queue s1 !! (nav_queue_pos s1 + 1) = Some prev
    ∧ navqueue_go_back s = Some s'
    ∧ (((goto_anchor (world s1) prev).1.1 = true
        ∧ nav_queue_pos s' = nav_queue_pos s1 + 1
        ∧ length (navigation_queue s') = length (navigation_queue s1))
       ∨ ((goto_anchor (world s1) prev).1.1 = false
          ∧ nav_queue_pos s' = nav_queue_pos s1
          ∧ length (navigation_queue s') = length (navigation_queue s1) - 1
          ∧ navigation_queue s'
            = delete (nav_queue_pos s1 + 1) (navigation_queue s1))).
Proof.
  intros Hrec Hne Hk.
  destruct (go_back_step_inv s1 Hne Hk) as (prev & s' & Hprev & Hstep & _ & _ & Hcase).
  exists prev, s'. split; [done|]. split.
  { unfold navqueue_go_back. by rewrite Hrec. }
  destruct (goto_anchor (world s1) prev) as [[moved w] prev'].
  destruct moved; destruct Hcase as (Hp & Hq & _); [left|right]; cbn [fst].
  - rewrite Hp, Hq, length_insert. done.
  - rewrite Hp, Hq, length_delete by eauto. done.
Qed.

(** C4: whatever a session made of navqueue_add_position calls (or of
    any other operation) does from the empty queue, the queue never has
    more than [MAX_NAVQUEUE_LENGTH] = 100 entries.  A further call
    returns early and leaves the queue (with the entry under the cursor
    refreshed by the matching test), or it pushes: the new anchor goes in
    front of the entries from the cursor on, and of this pushed queue
    the first 100 entries are kept, in their order; what is evicted is
    its tail beyond them, the oldest entries, and nothing else. *)
Theorem queue_length_bounded cs w0 :
  ∃ s,
    run cs (navqueue_init w0) = Some s
    ∧ length (navigation_queue s) ≤ 100
    ∧ ∀ doc pos, ∃ s',
        navqueue_add_position doc pos s = Some s'
        ∧ length (navigation_queue s') ≤ 100
        ∧ let tested := queue_pos_matches (world s) (navigation_queue s)
                          (nav_queue_pos s) doc pos in
          ((doc_file_name (world s) doc = None ∧ s' = s)
           ∨ (is_Some (doc_file_name (world s) doc)
              ∧ tested.1 = true
              ∧ navigation_queue s' = tested.2
              ∧ nav_queue_pos s' = nav_queue_pos s)
           ∨ ∃ file,
               let pushed :=
                 {| anchor_file := file; anchor_doc := Some doc;
                    anchor_id := to_gint (counter s + 1); anchor_pos := pos |}
                 :: drop (nav_queue_pos s) tested.2 in
               doc_file_name (world s) doc = Some file
               ∧ tested.1 = false
               ∧ navigation_queue s' = take 100 pushed
               ∧ pushed = navigation_queue s' ++ drop 100 pushed
               ∧ length (navigation_queue s') = length pushed `min` 100
               ∧ nav_queue_pos s' = 0).
Proof.
  destruct (session_inv_run cs (navqueue_init w0) (session_inv_init w0))
    as (s & Hrun & Hs).
  exists s. split; [done|]. split; [apply Hs|].
  intros doc pos.
  destruct (session_inv_add_position doc pos s Hs) as (s' & Hs' & Hmax' & _).
  exists s'. split; [done|]. split; [done|]. cbn zeta.
  apply add_position_inv in Hs'
    as [[Hnone ->]|[(Hsome & Hdup & ->)
                   |(file & w1 & Hfile & Hdup & _ & _ & _ & Hq & Hp & _)]].
  - by left.
  - right. left. done.
  - right. right. exists file. cbn zeta. unfold MAX_NAVQUEUE_LENGTH in Hq.
    split_and!; [done|done|done| | |done].
    + rewrite Hq. by rewrite take_drop.
    + rewrite Hq, length_take. lia.
Qed.

(** C2, amended: with the cursor on index [k], [0 < k < length], a call
    of navqueue_add_position for a document with a file name and a
    position that the entry under the cursor does not match leaves
    [min (length - k + 1) 100] entries and the cursor 0: the new anchor
    at the head, then the old entries from index [k] on (the one under
    the cursor as the matching test refreshed it); the entries of
    indices [0..k-1] are gone. *)
Theorem add_position_truncates doc pos s file :
  doc_file_name (world s) doc = Some file →
  0 < nav_queue_pos s < length (navigation_queue s) →
  (queue_pos_matches (world s) (navigation_queue s) (nav_queue_pos s) doc pos).1 = false →
  ∃ s',
    navqueue_add_position doc pos s = Some s'
    ∧ navigation_queue s'
      = take 100
          ({| anchor_file := file; anchor_doc := Some doc;
              anchor_id := to_gint (counter s + 1); anchor_pos := pos |}
           :: drop (nav_queue_pos s)
                (queue_pos_matches (world s) (navigation_queue s)
                   (nav_queue_pos s) doc pos).2)
    ∧ length (navigation_queue s')
      = (length (navigation_queue s) - nav_queue_pos s + 1) `min` 100
    ∧ (∀ i, 0 < i < 99 →
         navigation_queue s' !! S i = navigation_queue s !! (nav_queue_pos s + i))
    ∧ nav_queue_pos s' = 0.
Proof.
  intros Hfile Hk Htest.
  destruct (add_position_total doc pos s) as [s' Hs']; [lia|].
  exists s'. split; [done|].
  apply add_position_inv in Hs'
    as [[? _]|[(_ & ? & _)|(file' & w1 & Hfile' & _ & _ & _ & _ & Hq & Hp & _)]];
    [congruence..|].
  assert (file' = file) as -> by congruence.
  split; [done|]. split; [|split; [|done]].
  - rewrite Hq, length_take. cbn [length].
    rewrite length_drop, queue_pos_matches_length. unfold MAX_NAVQUEUE_LENGTH. lia.
  - intros i Hi. rewrite Hq, lookup_take_lt by (unfold MAX_NAVQUEUE_LENGTH; lia).
    rewrite lookup_cons, lookup_drop.
    destruct (queue_pos_matches _ _ _ _ _) as [dup q1] eqn:Ht. cbn [snd].
    apply queue_pos_matches_inv in Ht as [[_ ->]|(a & _ & _ & _ & ->)]; [done|].
    apply list_lookup_insert_ne. lia.
Qed.

(** C1, amended: for an anchor whose id is 0, refresh_anchor only
    resolves the document again and leaves id and offset; the anchor
    counts as absent only if no document is found.  A step of
    navqueue_go_back or navqueue_go_forward towards such an entry evicts
    it, without touching the world, when no document is found; with a
    document it asks the editor to go to the cached offset, and moves
    the cursor and keeps the entry if the editor does, and evicts the
    entry if the editor refuses. *)
Theorem untracked_anchor_navigated s target :
  anchor_id target = 0%Z →
  let target' := refresh_anchor (world s) target in
  let outcome (i cursor' : nat) (s' : NavState) : Prop :=
    match anchor_doc target' with
    | None =>
        nav_queue_pos s' = nav_queue_pos s
        ∧ navigation_queue s' = delete i (navigation_queue s)
        ∧ world s' = world s
    | Some d =>
        if (editor_goto_pos (world s) d (anchor_pos target)).1 then
          nav_queue_pos s' = cursor'
          ∧ navigation_queue s' = <[i := target']> (navigation_queue s)
          ∧ world s' = (editor_goto_pos (world s) d (anchor_pos target)).2
        else
          nav_queue_pos s' = nav_queue_pos s
          ∧ navigation_queue s' = delete i (navigation_queue s)
    end in
  anchor_id target' = 0%Z
  ∧ anchor_pos target' = anchor_pos target
  ∧ (navigation_queue s !! (nav_queue_pos s + 1) = Some target →
     ∃ s', go_back_step s = Some s'
           ∧ outcome (nav_queue_pos s + 1) (nav_queue_pos s + 1) s')
  ∧ (1 ≤ nav_queue_pos s < length (navigation_queue s) →
     navigation_queue s !! (nav_queue_pos s - 1) = Some target →
     ∃ s', navqueue_go_forward s = Some s'
           ∧ outcome (nav_queue_pos s - 1) (nav_queue_pos s - 1) s').
Proof.
  intros Hid. cbn zeta.
  destruct (refresh_anchor_untracked (world s) target (or_intror Hid)) as [Hid' Hpos'].
  rewrite Hid', Hpos'. split; [done|]. split; [done|].
  assert (∀ w, anchor_doc (refresh_anchor (world s) target) = None →
               w = world s →
               clear_anchor w (refresh_anchor (world s) target) = world s) as Hclear.
  { intros w Hnone ->. unfold clear_anchor.
    by rewrite refresh_anchor_idem, Hnone. }
  split.
  - intros Htarget. pose proof (lookup_lt_Some _ _ _ Htarget) as Hlt.
    destruct (go_back_step_inv s) as (prev & s' & Hprev & Hstep & _ & _ & Hcase).
    { intros Hq. rewrite Hq in Hlt. cbn in Hlt. lia. }
    { lia. }
    assert (prev = target) as -> by congruence.
    exists s'. split; [done|]. revert Hcase. unfold goto_anchor.
    destruct (anchor_doc (refresh_anchor (world s) target)) as [d|] eqn:Hdoc.
    + rewrite Hpos'.
      destruct (editor_goto_pos (world s) d (anchor_pos target)) as [[] w];
        cbn [fst snd]; tauto.
    + intros (Hp & Hq & Hw). rewrite Hclear in Hw by done. done.
  - intros Hk Htarget.
    destruct (go_forward_inv s Hk) as (next & s' & Hnext & Hstep & _ & _ & Hcase).
    assert (next = target) as -> by congruence.
    exists s'. split; [done|]. revert Hcase. unfold goto_anchor.
    destruct (anchor_doc (refresh_anchor (world s) target)) as [d|] eqn:Hdoc.
    + rewrite Hpos'.
      destruct (editor_goto_pos (world s) d (anchor_pos target)) as [[] w];
        cbn [fst snd]; tauto.
    + intros (Hp & Hq & Hw). rewrite Hclear in Hw by done. done.
Qed.

End Claims.

Section LawClaims.
Context {E : Editor} `{!MarkerLaws E}.
Implicit Types (w : World) (a anchor : NavigationAnchor) (d doc : GeanyDocument).
Implicit Types (q queue : list NavigationAnchor) (s : NavState).

(** C10: clear_anchor refreshes the anchor and then either leaves the
    world as it is, or clears the one unit at the refreshed offset, which
    carried the refreshed id; so for the id of any other live anchor (an
    id that is neither 0 nor this anchor's) the units that carry it are
    the same before and after, in every document. *)
Theorem clear_anchor_spares_others w anchor :
  (clear_anchor w anchor = w
   ∨ ∃ d, anchor_doc (refresh_anchor w anchor) = Some d
          ∧ sci_indicator_value_at w d (anchor_pos (refresh_anchor w anchor))
            = anchor_id (refresh_anchor w anchor)
          ∧ clear_anchor w anchor
            = sci_indicator_clear w d (anchor_pos (refresh_anchor w anchor)))
  ∧ ∀ d p id,
      id ≠ 0%Z → id ≠ anchor_id anchor →
      sci_indicator_value_at (clear_anchor w anchor) d p = id
      ↔ sci_indicator_value_at w d p = id.
Proof.
  split; [apply clear_anchor_cases|]. intros d p id. apply clear_anchor_keeps_tag.
Qed.

(** C5: navqueue_add_position on a live document, called a second time
    with the same document and position and nothing done to the world in
    between, returns early and leaves the whole state, so the length of
    the queue and the cursor: the entry under the cursor has the same
    file name and, refreshed, the same offset.  Ids are not reused: no
    anchor of the queue carries the id the counter gives next. *)
Theorem add_position_twice doc pos s s1 :
  doc_is_valid (world s) doc = true →
  Forall (λ a, anchor_id a ≠ to_gint (counter s + 1)) (navigation_queue s) →
  navqueue_add_position doc pos s = Some s1 →
  ∃ s2,
    navqueue_add_position doc pos s1 = Some s2
    ∧ length (navigation_queue s2) = length (navigation_queue s1)
    ∧ nav_queue_pos s2 = nav_queue_pos s1
    ∧ s2 = s1.
Proof.
  intros Hvalid Hfresh Hadd.
  assert (navqueue_add_position doc pos s1 = Some s1) as H2; [|by exists s1].
  pose proof Hadd as Hinv.
  apply add_position_inv in Hinv
    as [[Hnone ->]|[(Hsome & Hdup & ->)
                   |(file & w1 & Hfile & Hdup & Hk & Hdrop & Hw & Hq & Hp & Hc & Hb)]].
  - done.
  - destruct Hsome as [file Hfile].
    unfold navqueue_add_position.
    cbn [world navigation_queue nav_queue_pos counter navigation_buttons].
    rewrite Hfile.
    destruct (queue_pos_matches (world s) (navigation_queue s) (nav_queue_pos s) doc pos)
      as [dup q1] eqn:Ht.
    cbn [fst snd] in *. subst dup.
    apply queue_pos_matches_inv in Ht as [[? _]|(a & Ha & Hfa & Hpos & ->)]; [done|].
    rewrite queue_pos_matches_again, <- Hpos by done. done.
  - set (c := to_gint (counter s + 1)) in *.
    set (tested := queue_pos_matches (world s) (navigation_queue s) (nav_queue_pos s)
                     doc pos) in *.
    assert (Forall (λ a, c ≠ 0%Z → anchor_id a ≠ c) tested.2) as Hids.
    { subst tested.
      destruct (queue_pos_matches (world s) (navigation_queue s) (nav_queue_pos s) doc pos)
        as [dup q1] eqn:Ht.
      cbn [snd].
      assert (Forall (λ a, c ≠ 0%Z → anchor_id a ≠ c) (navigation_queue s)) as Hfresh'.
      { eapply Forall_impl; [exact Hfresh|]. cbn. auto. }
      apply queue_pos_matches_inv in Ht as [[_ ->]|(a & Ha & _ & _ & ->)]; [done|].
      apply Forall_insert; [done|]. intros H0.
      destruct (refresh_anchor_id (world s) a) as [-> | ->]; [|congruence].
      by apply (Forall_lookup_1 _ _ _ _ Hfresh Ha). }
    assert (still_tagged doc file c pos (world s1)) as Htag.
    { rewrite Hw.
      apply (evict_tail_keeps (still_tagged doc file c pos)
               (λ a, c ≠ 0%Z → anchor_id a ≠ c)).
      - intros w a. apply still_tagged_clear_anchor.
      - by apply Forall_drop.
      - assert (doc_is_valid w1 doc = true ∧ doc_file_name w1 doc = Some file) as [??].
        { apply (drop_forward_keeps
                   (λ w, doc_is_valid w doc = true ∧ doc_file_name w doc = Some file)
                   _ _ _ _ _) with (3 := Hdrop); [|done].
          intros w a. by rewrite clear_anchor_is_valid, clear_anchor_file_name. }
        unfold still_tagged.
        rewrite is_valid_fill, file_name_fill, value_at_fill.
        rewrite decide_True by done. done. }
    unfold navqueue_add_position.
    pose proof Htag as (_ & Hname & _). rewrite Hname, Hq, Hp.
    unfold queue_pos_matches, MAX_NAVQUEUE_LENGTH. cbn [take length Nat.ltb Nat.leb].
    rewrite lookup_cons. cbn [anchor_file].
    unfold utils_str_equal. rewrite Hname, bool_decide_eq_true_2 by done.
    rewrite (refresh_anchor_fixed doc file c pos (world s1) Htag).
    cbn [anchor_pos]. rewrite bool_decide_eq_true_2 by done.
    f_equal. destruct s1. cbn in *. unfold MAX_NAVQUEUE_LENGTH in Hq. cbn [take] in Hq.
    by subst.
Qed.

End LawClaims.

(** * The claims on the small editor *)

Section Runs.
Import Model.

(** C1 fails as it is stated.  "a.c" was reloaded, which lost the tag of
    its anchor, and the anchor has the id 0 since.  refresh_anchor leaves
    it its document, and navqueue_go_back from "b.c" goes to it: the
    editor shows "a.c" at the cached offset 10, the cursor of the queue
    is on the entry, and the entry is still in the queue. *)
Lemma untracked_anchor_counterexample :
  let s := visited a_reloaded 0 0 in
  anchor_id <$> navigation_queue s !! (nav_queue_pos s + 1) = Some 0%Z
  ∧ anchor_doc (refresh_anchor (world s) (anchor_a 0)) = Some 0
  ∧ document_get_current (world s) = Some 1
  ∧ (λ s', (nav_queue_pos s', navigation_queue s', document_get_current (world s'),
            sci_get_current_position (world s') 0))
      <$> navqueue_go_back s
    = Some (1, [anchor_b; anchor_a 0], Some 0, 10%Z).
Proof. cbn zeta. split_and!; vm_compute; reflexivity. Qed.

(** C2 fails as it is stated.  With two entries and the cursor on index
    1, adding another offset of "a.c" leaves two entries, the new anchor
    and the one that was under the cursor, and not [2 - 1]. *)
Lemma truncation_counterexample :
  let s := visited (two_tagged_files 0) 1 1 in
  length (navigation_queue s) = 2
  ∧ nav_queue_pos s = 1
  ∧ (queue_pos_matches (world s) (navigation_queue s) (nav_queue_pos s) 0 50).1 = false
  ∧ (λ s', (length (navigation_queue s'), nav_queue_pos s'))
      <$> navqueue_add_position 0 50 s
    = Some (2, 0)
  ∧ 2 ≠ length (navigation_queue s) - nav_queue_pos s.
Proof. cbn zeta. split_and!; vm_compute; done. Qed.

(** C9 fails on the code.  "a.c" at 10 and "b.c" at 5 are visited, the
    user goes back to "a.c", "b.c" is closed, and the user goes forward:
    the entry of "b.c", before the cursor, is evicted and the cursor is
    left at 1, the length of the queue that remains. *)
Theorem go_forward_failure_cursor :
  (λ s, (nav_queue_pos s, length (navigation_queue s)))
    <$> run [AddPosition 0 10; AddPosition 1 5; GoBack; Elsewhere b_closed; GoForward]
          (navqueue_init two_files)
  = Some (1, 1).
Proof. vm_compute. reflexivity. Qed.

(** C6 on "a.c" reloaded: the anchor still has its id 1, the offset 10
    no longer carries it, and the scan over the one untagged range of the
    text has an outcome. *)
Lemma refresh_anchor_scan_witness :
  anchor_doc (refresh_anchor a_reloaded (anchor_a 1)) = Some 0
  ∧ anchor_id (anchor_a 1) ≠ 0%Z
  ∧ sci_indicator_value_at a_reloaded 0 (anchor_pos (anchor_a 1)) ≠ anchor_id (anchor_a 1)
  ∧ ∃ r, scan_exec (sci_indicator_value_at a_reloaded 0) (sci_indicator_end a_reloaded 0)
           (anchor_id (anchor_a 1)) 0 r.
Proof.
  assert (anchor_doc (refresh_anchor a_reloaded (anchor_a 1)) = Some 0) as H1
    by (vm_compute; reflexivity).
  assert (anchor_id (anchor_a 1) ≠ 0%Z) as H2 by (vm_compute; discriminate).
  assert (sci_indicator_value_at a_reloaded 0 (anchor_pos (anchor_a 1))
          ≠ anchor_id (anchor_a 1)) as H3 by (vm_compute; discriminate).
  split_and!; [done..|].
  destruct (refresh_anchor_scan_terminates (E:=editor) a_reloaded (anchor_a 1) 0 H1 H2 H3)
    as (r & Hr & _).
  by exists r.
Defined.

(** C3 on the two files, from "b.c": the position is recorded already,
    and the step goes to the entry of "a.c". *)
Lemma go_back_witness :
  let s := visited (two_tagged_files 1) 0 1 in
  go_back_record s = Some s
  ∧ navigation_queue s ≠ []
  ∧ nav_queue_pos s < length (navigation_queue s) - 1
  ∧ ∃ prev s', navigation_queue s !! (nav_queue_pos s + 1) = Some prev
               ∧ navqueue_go_back s = Some s'.
Proof.
  cbn zeta.
  assert (go_back_record (visited (two_tagged_files 1) 0 1)
          = Some (visited (two_tagged_files 1) 0 1)) as H1 by reflexivity.
  assert (navigation_queue (visited (two_tagged_files 1) 0 1) ≠ []) as H2 by done.
  assert (nav_queue_pos (visited (two_tagged_files 1) 0 1)
          < length (navigation_queue (visited (two_tagged_files 1) 0 1)) - 1) as H3
    by (vm_compute; lia).
  split_and!; [done..|].
  destruct (go_back_all_or_nothing (E:=editor) _ _ H1 H2 H3) as (prev & s' & Hprev & Hgo & _).
  by exists prev, s'.
Defined.

(** C2, amended, with two entries and the cursor on index 1: another
    offset of "a.c" is added, and two entries are left. *)
Lemma add_position_truncates_witness :
  let s := visited (two_tagged_files 0) 1 1 in
  doc_file_name (world s) 0 = Some "a.c"
  ∧ 0 < nav_queue_pos s < length (navigation_queue s)
  ∧ (queue_pos_matches (world s) (navigation_queue s) (nav_queue_pos s) 0 50).1 = false
  ∧ ∃ s', navqueue_add_position 0 50 s = Some s'
          ∧ length (navigation_queue s') = 2
          ∧ nav_queue_pos s' = 0.
Proof.
  cbn zeta.
  assert (doc_file_name (world (visited (two_tagged_files 0) 1 1)) 0 = Some "a.c") as H1
    by reflexivity.
  assert (0 < nav_queue_pos (visited (two_tagged_files 0) 1 1)
          < length (navigation_queue (visited (two_tagged_files 0) 1 1))) as H2
    by (vm_compute; lia).
  assert ((queue_pos_matches (world (visited (two_tagged_files 0) 1 1))
             (navigation_queue (visited (two_tagged_files 0) 1 1))
             (nav_queue_pos (visited (two_tagged_files 0) 1 1)) 0 50).1 = false) as H3
    by (vm_compute; reflexivity).
  split; [done|]. split; [done|]. split; [done|].
  destruct (add_position_truncates (E:=editor) 0 50 _ "a.c" H1 H2 H3) as (s' & Hs' & _ & Hlen & _ & Hp).
  exists s'. split_and!; [done| |done]. rewrite Hlen. reflexivity.
Defined.

(** C1, amended, from "b.c" with the anchor of the reloaded "a.c" next:
    the step moves the cursor onto it. *)
Lemma untracked_anchor_witness :
  let s := visited a_reloaded 0 0 in
  anchor_id (anchor_a 0) = 0%Z
  ∧ navigation_queue s !! (nav_queue_pos s + 1) = Some (anchor_a 0)
  ∧ ∃ s', go_back_step s = Some s' ∧ nav_queue_pos s' = 1.
Proof.
  cbn zeta.
  assert (anchor_id (anchor_a 0) = 0%Z) as H1 by reflexivity.
  assert (navigation_queue (visited a_reloaded 0 0)
            !! (nav_queue_pos (visited a_reloaded 0 0) + 1) = Some (anchor_a 0)) as H2
    by reflexivity.
  split_and!; [done..|].
  destruct (untracked_anchor_navigated (E:=editor) (visited a_reloaded 0 0) (anchor_a 0) H1)
    as (_ & _ & Hback & _).
  destruct (Hback H2) as (s' & Hs' & Hout).
  exists s'. split; [done|]. exact (proj1 Hout).
Defined.

(** C10 on the two tagged files: clearing the anchor of "b.c" leaves the
    tag 1 of the anchor of "a.c" at offset 10. *)
Lemma clear_anchor_spares_others_witness :
  (1 ≠ 0)%Z ∧ 1%Z ≠ anchor_id anchor_b
  ∧ sci_indicator_value_at (clear_anchor (two_tagged_files 0) anchor_b) 0 10 = 1%Z.
Proof.
  assert (1 ≠ 0)%Z as H1 by discriminate.
  assert (1%Z ≠ anchor_id anchor_b) as H2 by discriminate.
  split_and!; [done..|].
  apply (proj2 (clear_anchor_spares_others (E:=editor) (two_tagged_files 0) anchor_b) 0 10%Z 1%Z H1 H2).
  reflexivity.
Defined.

(** C5 on the two files: "b.c" at 5 is added to the empty queue, twice. *)
Lemma add_position_twice_witness :
  let s := navqueue_init two_files in
  doc_is_valid (world s) 1 = true
  ∧ Forall (λ a, anchor_id a ≠ to_gint (counter s + 1)) (navigation_queue s)
  ∧ ∃ s1, navqueue_add_position 1 5 s = Some s1
          ∧ length (navigation_queue s1) = 1
          ∧ ∃ s2, navqueue_add_position 1 5 s1 = Some s2 ∧ s2 = s1.
Proof.
  cbn zeta.
  assert (doc_is_valid (world (navqueue_init two_files)) 1 = true) as H1 by reflexivity.
  assert (Forall (λ a, anchor_id a ≠ to_gint (counter (navqueue_init two_files) + 1))
            (navigation_queue (navqueue_init two_files))) as H2
    by constructor.
  split_and!; [done..|].
  destruct (navqueue_add_position (E:=editor) 1 5 (navqueue_init (E:=editor) two_files))
    as [s1|] eqn:H3;
    [|by vm_compute in H3].
  exists s1. split; [done|]. split.
  { apply (f_equal (fmap (λ s, length (navigation_queue s)))) in H3.
    vm_compute in H3. by injection H3. }
  destruct (add_position_twice (E:=editor) 1 5 _ s1 H1 H2 H3) as (s2 & Hs2 & _ & _ & Heq).
  by exists s2.
Defined.

(** C7 on the session that visits the two files: both are open, the
    cursor is 0, back is enabled and forward is not. *)
Lemma buttons_show_affordances_witness :
  ∃ s, run (E:=editor) [AddPosition 0 10; AddPosition 1 5] (navqueue_init two_files)
       = Some s
       ∧ navigation_buttons s = (can_go_back s, can_go_forward s).
Proof.
  destruct (buttons_show_affordances (E:=editor)
              [AddPosition (E:=editor) 0 10; AddPosition (E:=editor) 1 5] two_files)
    as (_ & s & Hrun & Hb & _).
  by exists s.
Defined.

End Runs.

(** * Further properties of navqueue.c *)

(** ** refresh_anchor *)

Section ScanFinds.
Variables (value_at range_end : Z → Z) (id len : Z).

(** Over well-formed ranges the scan cannot step over a unit that carries
    the id: it is left at the first such unit. *)
Lemma scan_exec_finds q pos r :
  ranges_ok value_at range_end len →
  (0 <= q < len)%Z → value_at q = id →
  scan_exec value_at range_end id pos r →
  (0 <= pos <= q)%Z →
  ∃ p, r = Found p ∧ (pos <= p <= q)%Z ∧ value_at p = id.
Proof.
  intros [Hlen Hranges] Hq Hvq Hexec. induction Hexec as [pos Hv|pos Hv Hend|pos r Hv Hend _ IH];
    intros Hpos.
  - exists pos. split_and!; [done|lia|lia|done].
  - destruct (Hranges pos) as [Hadv _]; [lia|].
    rewrite to_gint_id in Hend by lia. lia.
  - destruct (Hranges pos) as [Hadv Hsame]; [lia|].
    rewrite to_gint_id in Hend, IH by lia.
    destruct (decide (range_end pos <= q)%Z) as [Hle|Hgt].
    + destruct IH as (p & -> & Hp & Hvp); [lia|]. exists p. split_and!; [done|lia|lia|done].
    + rewrite <- (Hsame q) in Hv by lia. done.
Qed.

End ScanFinds.

Section RefreshMore.
Context {E : Editor}.
Implicit Types (w : World) (a anchor : NavigationAnchor) (d doc : GeanyDocument).

(** X1: refreshing an anchor a second time in the same world changes
    nothing more; and a refresh never changes the file name and leaves
    the id or zeroes it. *)
Theorem refresh_anchor_twice w anchor :
  refresh_anchor w (refresh_anchor w anchor) = refresh_anchor w anchor
  ∧ anchor_file (refresh_anchor w anchor) = anchor_file anchor
  ∧ (anchor_id (refresh_anchor w anchor) = anchor_id anchor
     ∨ anchor_id (refresh_anchor w anchor) = 0%Z).
Proof.
  split_and!; [apply refresh_anchor_idem|apply refresh_anchor_file|apply refresh_anchor_id].
Qed.

(** X2: the document a refresh leaves in the anchor is never a stale
    handle: it is the cached one only if that is still valid and still
    has the anchor's file name, and otherwise it is what
    document_find_by_filename answers for that name, NULL included. *)
Theorem refresh_anchor_resolves w anchor :
  (∃ d, anchor_doc anchor = Some d
        ∧ doc_is_valid w d = true
        ∧ doc_file_name w d = Some (anchor_file anchor)
        ∧ anchor_doc (refresh_anchor w anchor) = Some d)
  ∨ ((∀ d, anchor_doc anchor = Some d → doc_is_valid w d = true →
           doc_file_name w d ≠ Some (anchor_file anchor))
     ∧ anchor_doc (refresh_anchor w anchor)
       = document_find_by_filename w (anchor_file anchor)).
Proof.
  rewrite refresh_anchor_doc. unfold utils_str_equal.
  destruct (anchor_doc anchor) as [d|]; cbn.
  - destruct (doc_is_valid w d) eqn:Hvalid; cbn.
    + case_bool_decide as Hname; cbn.
      * left. exists d. by simplify_eq.
      * right. split; [|done]. intros d' [= <-] _ Heq. by rewrite Heq in Hname.
    + right. split; [|done]. intros d' [= <-]. congruence.
  - right. split; [|done]. done.
Qed.

(** X3: what a refresh establishes.  Afterwards the anchor has no
    document, or its id is 0, or the unit at its offset carries its id,
    which is the id it had. *)
Theorem refresh_anchor_establishes w anchor :
  anchor_doc (refresh_anchor w anchor) = None
  ∨ anchor_id (refresh_anchor w anchor) = 0%Z
  ∨ ∃ d, anchor_doc (refresh_anchor w anchor) = Some d
         ∧ anchor_id (refresh_anchor w anchor) = anchor_id anchor
         ∧ sci_indicator_value_at w d (anchor_pos (refresh_anchor w anchor))
           = anchor_id anchor.
Proof.
  destruct (anchor_doc (refresh_anchor w anchor)) as [d|] eqn:Hdoc; [|by left].
  destruct (decide (anchor_id (refresh_anchor w anchor) = 0%Z)) as [H0|H0]; [by auto|].
  right. right. exists d.
  pose proof (refresh_anchor_tagged w anchor d Hdoc H0) as Htag.
  destruct (refresh_anchor_id w anchor) as [Hid|Hid]; [|done].
  rewrite Hid in Htag. done.
Qed.

(** X4: the slow path finds a tag that is there.  When a document is
    resolved, the ranges of its indicator are well formed over a text of
    [len] units and some unit [q] of the text carries the anchor's id
    (not 0), the refresh keeps the id and leaves the anchor on a unit
    that carries it; and when the cached offset no longer carries the
    id, that unit is the first one of the text that does. *)
Theorem refresh_anchor_finds_tag w anchor d len q :
  anchor_doc (refresh_anchor w anchor) = Some d →
  anchor_id anchor ≠ 0%Z →
  ranges_ok (sci_indicator_value_at w d) (sci_indicator_end w d) len →
  (0 <= q < len)%Z →
  sci_indicator_value_at w d q = anchor_id anchor →
  anchor_id (refresh_anchor w anchor) = anchor_id anchor
  ∧ sci_indicator_value_at w d (anchor_pos (refresh_anchor w anchor)) = anchor_id anchor
  ∧ (sci_indicator_value_at w d (anchor_pos anchor) ≠ anchor_id anchor →
     (0 <= anchor_pos (refresh_anchor w anchor) <= q)%Z).
Proof.
  intros Hdoc Hid Hranges Hq Hvq.
  destruct (decide (sci_indicator_value_at w d (anchor_pos anchor) = anchor_id anchor))
    as [Hfast|Hslow].
  { destruct (refresh_anchor_fast w anchor d Hdoc Hfast) as [-> ->]. done. }
  pose proof (refresh_anchor_slow w anchor d Hdoc Hid Hslow) as Hout.
  pose proof (indicator_scan_exec (sci_indicator_value_at w d) (sci_indicator_end w d)
                (anchor_id anchor)) as Hexec.
  destruct (scan_exec_finds _ _ _ _ q 0 _ Hranges Hq Hvq Hexec) as (p & Hp & Hpq & Hvp);
    [lia|].
  rewrite Hp in Hout. destruct Hout as [-> ->]. done.
Qed.

End RefreshMore.

(** ** Sessions *)

Section SessionMore.
Context {E : Editor}.
Implicit Types (w : World) (a b anchor : NavigationAnchor) (d doc : GeanyDocument).
Implicit Types (q queue : list NavigationAnchor) (s : NavState).

(** X5: no session dereferences a NULL anchor, and the cursor never
    passes the end of the queue: whatever operations are called from
    navqueue_init on, and whatever happens to the documents in between,
    each call returns and leaves the cursor at most equal to the length
    of the queue. *)
Theorem session_runs cs w0 :
  ∃ s, run cs (navqueue_init w0) = Some s
       ∧ nav_queue_pos s ≤ length (navigation_queue s).
Proof.
  destruct (session_inv_run cs (navqueue_init w0) (session_inv_init w0))
    as (s & Hrun & _ & Hk & _).
  by exists s.
Qed.

Lemma ids_decrease_tail a q : ids_decrease (a :: q) → ids_decrease q.
Proof.
  intros H i j x y Hlt Hi Hj. apply (H (S i) (S j) x y); [lia|done..].
Qed.

Lemma ids_decrease_cons a q :
  (∀ b, b ∈ q → newer_id a b) → ids_decrease q → ids_decrease (a :: q).
Proof.
  intros Ha Hq i j x y Hlt Hi Hj.
  destruct j as [|j]; [lia|]. cbn in Hj.
  destruct i as [|i]; cbn in Hi.
  - injection Hi as <-. apply Ha. by eapply list_elem_of_lookup_2.
  - apply (Hq i j); [lia|done..].
Qed.

Lemma ids_decrease_sublist l k :
  l `sublist_of` k → ids_decrease k → ids_decrease l.
Proof.
  induction 1 as [|x l k Hsub IH|x l k Hsub IH]; intros Hk.
  - done.
  - apply ids_decrease_cons; [|by eapply IH, ids_decrease_tail].
    intros b Hb. apply (elem_of_sublist _ k) in Hb; [|done].
    apply list_elem_of_lookup_1 in Hb as [j Hj].
    apply (Hk 0 (S j) x b); [lia|done..].
  - by eapply IH, ids_decrease_tail.
Qed.

Lemma lookup_refreshed w q i a j b :
  q !! i = Some a →
  <[i := refresh_anchor w a]> q !! j = Some b →
  ∃ b0, q !! j = Some b0 ∧ (anchor_id b = anchor_id b0 ∨ anchor_id b = 0%Z).
Proof.
  intros Ha Hb. destruct (decide (i = j)) as [<-|Hne].
  - rewrite list_lookup_insert_eq in Hb by (by eapply lookup_lt_Some).
    injection Hb as <-. exists a. split; [done|]. apply refresh_anchor_id.
  - rewrite list_lookup_insert_ne in Hb by done. exists b. auto.
Qed.

Lemma ids_decrease_refreshed w q i a :
  ids_decrease q → q !! i = Some a → ids_decrease (<[i := refresh_anchor w a]> q).
Proof.
  intros Hq Ha j k x y Hlt Hx Hy Hx0 Hy0.
  apply (lookup_refreshed w q i a) in Hx as (x0 & Hx & Hidx); [|done].
  apply (lookup_refreshed w q i a) in Hy as (y0 & Hy & Hidy); [|done].
  destruct Hidx as [Hidx|?]; [|done]. destruct Hidy as [Hidy|?]; [|done].
  rewrite Hidx, Hidy. apply (Hq j k x0 y0); [done..|congruence|congruence].
Qed.

Lemma ids_decrease_tested w q n doc pos :
  ids_decrease q → ids_decrease (queue_pos_matches w q n doc pos).2.
Proof.
  intros Hq. destruct (queue_pos_matches w q n doc pos) as [dup q1] eqn:Ht. cbn [snd].
  apply queue_pos_matches_inv in Ht as [[_ ->]|(a & Ha & _ & _ & ->)]; [done|].
  by apply ids_decrease_refreshed.
Qed.

Lemma ids_decrease_add_position n doc pos s s' :
  (n < 2147483647)%Z → ids_within n s → ids_decrease (navigation_queue s) →
  navqueue_add_position doc pos s = Some s' → ids_decrease (navigation_queue s').
Proof.
  intros Hn [Hc Hids] Hq Hadd.
  pose proof (ids_decrease_tested (world s) _ (nav_queue_pos s) doc pos Hq) as Htested.
  assert (Forall (λ a, (0 <= anchor_id a <= counter s)%Z)
            (queue_pos_matches (world s) (navigation_queue s) (nav_queue_pos s)
               doc pos).2) as Hbound.
  { destruct (queue_pos_matches _ _ _ _ _) as [dup q1] eqn:Ht. cbn [snd].
    apply queue_pos_matches_inv in Ht as [[_ ->]|(a & Ha & _ & _ & ->)]; [done|].
    by eapply (ids_within_refreshed n). }
  apply add_position_inv in Hadd
    as [[_ ->]|[(_ & _ & ->)|(file & w1 & _ & _ & _ & _ & _ & Hq' & _)]]; [done..|].
  rewrite Hq'. eapply ids_decrease_sublist; [apply sublist_take|].
  apply ids_decrease_cons.
  - intros b Hb _ _. cbn [anchor_id]. rewrite to_gint_id by lia.
    pose proof (elem_of_sublist _ _ _ Hb (sublist_drop _ (nav_queue_pos s))) as Hb'.
    pose proof (proj1 (Forall_forall _ _) Hbound b Hb') as Hidb. cbn in Hidb. lia.
  - eapply ids_decrease_sublist; [apply sublist_drop|done].
Qed.

Lemma ids_decrease_kept s s' :
  ids_decrease (navigation_queue s) →
  (navigation_queue s' = navigation_queue s
   ∨ ∃ i a, navigation_queue s !! i = Some a
            ∧ (navigation_queue s' = <[i := refresh_anchor (world s) a]> (navigation_queue s)
               ∨ navigation_queue s' = delete i (navigation_queue s))) →
  ids_decrease (navigation_queue s').
Proof.
  intros Hq [->|(i & a & Ha & [->| ->])]; [done|by apply ids_decrease_refreshed|].
  eapply ids_decrease_sublist; [apply sublist_delete|done].
Qed.

Lemma ids_decrease_step n c s s' :
  (n < 2147483647)%Z → ids_within n s → ids_decrease (navigation_queue s) →
  step c s = Some s' → ids_decrease (navigation_queue s').
Proof.
  intros Hn Hs Hq. destruct c; cbn [step].
  - by apply (ids_decrease_add_position n).
  - unfold navqueue_go_back, go_back_record.
    destruct (document_get_current (world s)) as [doc|]; cbn [mbind option_bind].
    + destruct (navqueue_add_position doc _ s) as [s1|] eqn:Hadd; [|done].
      cbn [mbind option_bind]. intros Hstep.
      apply (ids_decrease_kept s1); [by eapply (ids_decrease_add_position n)|].
      by apply go_back_step_queue.
    + intros Hstep. apply (ids_decrease_kept s); [done|]. by apply go_back_step_queue.
  - intros Hstep. apply (ids_decrease_kept s); [done|]. by apply go_forward_queue.
  - intros [= <-]. destruct filename as [filename|]; [|done].
    destruct (remove_file_inv filename s) as (-> & _).
    eapply ids_decrease_sublist; [apply sublist_filter|done].
  - by intros [= <-].
Qed.

Lemma ids_ordered_run cs n s0 s :
  (n + Z.of_nat (length cs) < 2147483647)%Z →
  ids_within n s0 → ids_decrease (navigation_queue s0) →
  run cs s0 = Some s →
  ids_within (n + Z.of_nat (length cs)) s ∧ ids_decrease (navigation_queue s).
Proof.
  revert n s0. induction cs as [|c cs IH]; intros n s0 Hn Hs0 Hq0; cbn [run].
  - intros [= <-]. cbn [length]. by rewrite Z.add_0_r.
  - cbn [length] in Hn |- *.
    destruct (step c s0) as [s1|] eqn:Hstep; [|done]. cbn [mbind option_bind].
    intros Hrun.
    replace (n + Z.of_nat (S (length cs)))%Z with (n + 1 + Z.of_nat (length cs))%Z by lia.
    apply (IH (n + 1)%Z s1); [lia| | |done].
    + apply (ids_within_step n c s0); [lia|done..].
    + apply (ids_decrease_step n c s0); [lia|done..].
Qed.

(** X6: ids are not reused.  In a session of fewer than [2^31 - 1]
    operations the counter has counted up from 0 by at most one per
    operation, and of two anchors of the queue whose ids are not 0 the
    one nearer to the head has the greater id, both being ids the
    counter has given: the live ids of the queue are pairwise
    different. *)
Theorem session_ids_ordered cs w0 s :
  (Z.of_nat (length cs) < 2147483647)%Z →
  run cs (navqueue_init w0) = Some s →
  (0 <= counter s <= Z.of_nat (length cs))%Z
  ∧ ∀ i j a b,
      i < j →
      navigation_queue s !! i = Some a → navigation_queue s !! j = Some b →
      anchor_id a ≠ 0%Z → anchor_id b ≠ 0%Z →
      (0 < anchor_id b < anchor_id a)%Z ∧ (anchor_id a <= counter s)%Z.
Proof.
  intros Hlen Hrun.
  destruct (ids_ordered_run cs 0 (navqueue_init w0) s) as [[Hc Hids] Hq]; [lia| |done|done|].
  { split; [cbn; lia|constructor]. }
  split; [lia|]. intros i j a b Hlt Ha Hb Ha0 Hb0.
  pose proof (Forall_lookup_1 _ _ _ _ Hids Ha) as Hia.
  pose proof (Forall_lookup_1 _ _ _ _ Hids Hb) as Hib.
  pose proof (Hq i j a b Hlt Ha Hb Ha0 Hb0). cbn in Hia, Hib. lia.
Qed.

End SessionMore.

(** ** The operations *)

Section OperationsMore.
Context {E : Editor}.
Implicit Types (w : World) (a b anchor : NavigationAnchor) (d doc : GeanyDocument).
Implicit Types (q queue : list NavigationAnchor) (s : NavState).

Lemma navstate_eq s1 s2 :
  world s1 = world s2 → navigation_queue s1 = navigation_queue s2 →
  nav_queue_pos s1 = nav_queue_pos s2 → counter s1 = counter s2 →
  navigation_buttons s1 = navigation_buttons s2 → s1 = s2.
Proof. destruct s1, s2; cbn; congruence. Qed.

Lemma remove_file_loop_none fuel filename w q :
  Forall (λ a, anchor_file a ≠ filename) q →
  remove_file_loop fuel filename w q = (w, q).
Proof.
  intros Hq. destruct fuel; [done|]. cbn [remove_file_loop].
  unfold g_queue_find_custom.
  destruct (list_find _ q) as [[i a]|] eqn:Hfind; [|done].
  apply list_find_Some in Hfind as (Hi & Ha & _).
  pose proof (Forall_lookup_1 _ _ _ _ Hq Hi) as Hfile. cbn in Hfile.
  unfold find_by_filename, utils_str_equal in Ha.
  case_bool_decide; [congruence|done].
Qed.

Lemma reset_twice (k n : nat) :
  (if decide ((if decide (k < n) then k else 0) < n)
   then if decide (k < n) then k else 0 else 0)
  = if decide (k < n) then k else 0.
Proof. repeat case_decide; lia. Qed.

(** X7: navqueue_remove_file is idempotent: a second call for the same
    file name leaves the whole state, the documents included; and a call
    for a file name that no anchor of the queue has leaves the queue and
    the documents. *)
Theorem remove_file_idempotent filename s :
  navqueue_remove_file filename (navqueue_remove_file filename s)
  = navqueue_remove_file filename s
  ∧ ∀ f, filename = Some f →
         Forall (λ a, anchor_file a ≠ f) (navigation_queue s) →
         world (navqueue_remove_file filename s) = world s
         ∧ navigation_queue (navqueue_remove_file filename s) = navigation_queue s.
Proof.
  destruct filename as [f|]; [|done].
  assert (∀ s0, Forall (λ a, anchor_file a ≠ f) (navigation_queue s0) →
                world (navqueue_remove_file (Some f) s0) = world s0
                ∧ navigation_queue (navqueue_remove_file (Some f) s0)
                  = navigation_queue s0) as Habsent.
  { intros s0 Hq. unfold navqueue_remove_file.
    rewrite remove_file_loop_none by done.
    match goal with |- context [adjust_buttons ?x] =>
      destruct (adjust_buttons_frame x) as (-> & -> & _) end.
    done. }
  split; [|intros f' [= <-]; apply Habsent].
  destruct (remove_file_inv f s) as (Hq & Hp & Hc & Hb).
  assert (Forall (λ a, anchor_file a ≠ f)
            (navigation_queue (navqueue_remove_file (Some f) s))) as Hgone.
  { rewrite Hq. apply Forall_forall. by intros a [? _]%list_elem_of_filter. }
  destruct (Habsent _ Hgone) as [Hw2 Hq2].
  destruct (remove_file_inv f (navqueue_remove_file (Some f) s)) as (_ & Hp2 & Hc2 & Hb2).
  apply navstate_eq; [done..| | |].
  - rewrite Hp2, Hq2, Hp. apply reset_twice.
  - done.
  - rewrite Hb2, Hb. apply affordances_same; [by rewrite Hq2|].
    rewrite Hp2, Hq2, Hp. apply reset_twice.
Qed.

(** X8: going back and then forward.  When the editor goes to the older
    entry and then, from there, to the entry the cursor was on, the step
    back followed by navqueue_go_forward leaves the cursor where it was
    and every entry in its place; only the two anchors gone to are
    refreshed.  No id is given out. *)
Theorem back_then_forward s prev cur :
  navigation_queue s !! (nav_queue_pos s + 1) = Some prev →
  navigation_queue s !! nav_queue_pos s = Some cur →
  (goto_anchor (world s) prev).1.1 = true →
  (goto_anchor (goto_anchor (world s) prev).1.2 cur).1.1 = true →
  ∃ s1 s2,
    go_back_step s = Some s1
    ∧ navqueue_go_forward s1 = Some s2
    ∧ nav_queue_pos s1 = nav_queue_pos s + 1
    ∧ nav_queue_pos s2 = nav_queue_pos s
    ∧ navigation_queue s2
      = <[nav_queue_pos s := refresh_anchor (world s1) cur]>
          (<[nav_queue_pos s + 1 := refresh_anchor (world s) prev]> (navigation_queue s))
    ∧ counter s2 = counter s.
Proof.
  intros Hprev Hcur Hback Hforth.
  pose proof (lookup_lt_Some _ _ _ Hprev) as Hlen.
  destruct (go_back_step_inv s) as (prev0 & s1 & Hprev0 & Hstep1 & _ & Hc1 & Hcase1).
  { intros Hnil. rewrite Hnil in Hlen. cbn in Hlen. lia. }
  { lia. }
  assert (prev0 = prev) as -> by congruence.
  pose proof (goto_anchor_anchor (world s) prev) as Hprev'.
  destruct (goto_anchor (world s) prev) as [[moved1 w1] prev'].
  cbn [fst snd] in *. subst moved1 prev'.
  destruct Hcase1 as (Hp1 & Hq1 & Hw1).
  destruct (go_forward_inv s1) as (next & s2 & Hnext & Hstep2 & _ & Hc2 & Hcase2).
  { rewrite Hp1, Hq1, length_insert. lia. }
  rewrite Hp1, Hq1, Nat.add_sub, list_lookup_insert_ne, Hcur in Hnext by lia.
  injection Hnext as <-.
  pose proof (goto_anchor_anchor (world s1) cur) as Hcur'.
  rewrite Hw1 in Hcase2, Hcur'.
  destruct (goto_anchor w1 cur) as [[moved2 w2] cur'].
  cbn [fst snd] in *. subst moved2 cur'.
  destruct Hcase2 as (Hp2 & Hq2 & Hw2).
  exists s1, s2. split_and!; [done..| | |congruence].
  - rewrite Hp2, Hp1. lia.
  - rewrite Hq2, Hp1, Hq1, Hw1, Nat.add_sub. done.
Qed.

(** X9: navqueue_go_forward always returns, and it is all or nothing
    like the step back: it leaves the state as it is, which it does
    whenever the cursor is 0 or not below the length of the queue; or the
    cursor is one less and the queue as long as it was; or the cursor is
    the same and the queue one entry shorter.  It gives out no id. *)
Theorem go_forward_all_or_nothing s :
  ∃ s',
    navqueue_go_forward s = Some s'
    ∧ counter s' = counter s
    ∧ (nav_queue_pos s = 0 ∨ length (navigation_queue s) ≤ nav_queue_pos s → s' = s)
    ∧ (s' = s
       ∨ (nav_queue_pos s' + 1 = nav_queue_pos s
          ∧ length (navigation_queue s') = length (navigation_queue s))
       ∨ (nav_queue_pos s' = nav_queue_pos s
          ∧ length (navigation_queue s') + 1 = length (navigation_queue s)
          ∧ navigation_queue s'
            = delete (nav_queue_pos s - 1) (navigation_queue s))).
Proof.
  destruct (decide (nav_queue_pos s < 1
                    ∨ length (navigation_queue s) ≤ nav_queue_pos s)) as [Hno|Hgo].
  { exists s. rewrite go_forward_nowhere by done. auto. }
  destruct (go_forward_inv s) as (next & s' & Hnext & Hstep & _ & Hc & Hcase); [lia|].
  exists s'. split; [done|]. split; [done|]. split; [intros ?; lia|].
  right. destruct (goto_anchor (world s) next) as [[moved w] next'].
  destruct moved; destruct Hcase as (Hp & Hq & _); [left|right]; rewrite Hp, Hq.
  - rewrite length_insert. split; [lia|done].
  - rewrite length_delete by eauto. split_and!; [done|lia|done].
Qed.

(** X10: navqueue_add_position records the position.  For a document
    with a file name, once the call has returned the entry under the
    cursor has that file name and the position given, whether it was
    there already or has been pushed. *)
Theorem add_position_records doc pos s s' file :
  doc_file_name (world s) doc = Some file →
  navqueue_add_position doc pos s = Some s' →
  ∃ a, navigation_queue s' !! nav_queue_pos s' = Some a
       ∧ anchor_file a = file ∧ anchor_pos a = pos.
Proof.
  intros Hfile Hadd.
  apply add_position_inv in Hadd
    as [[? _]|[(_ & Hdup & ->)|(file' & w1 & Hfile' & _ & _ & _ & _ & Hq & Hp & _)]].
  - congruence.
  - cbn [navigation_queue nav_queue_pos].
    destruct (queue_pos_matches _ _ _ _ _) as [dup q1] eqn:Ht. cbn [fst snd] in *.
    subst dup.
    apply queue_pos_matches_inv in Ht as [[? _]|(a & Ha & Hfa & Hpos & ->)]; [done|].
    exists (refresh_anchor (world s) a).
    rewrite list_lookup_insert_eq by (by eapply lookup_lt_Some).
    rewrite refresh_anchor_file. split_and!; [done|congruence|].
    symmetry in Hpos. by apply bool_decide_eq_true in Hpos.
  - rewrite Hq, Hp. eexists. split; [reflexivity|]. cbn. split; congruence.
Qed.

(** X11: the bound at work.  With the cursor on the head, a call that
    does not match pushes the new anchor in front of the queue as the
    matching test left it: below 100 entries nothing is lost, and with
    100 entries the oldest one is evicted and 100 are left. *)
Theorem add_position_at_head doc pos s file :
  doc_file_name (world s) doc = Some file →
  nav_queue_pos s = 0 →
  (queue_pos_matches (world s) (navigation_queue s) 0 doc pos).1 = false →
  let tested := (queue_pos_matches (world s) (navigation_queue s) 0 doc pos).2 in
  let anchor := {| anchor_file := file; anchor_doc := Some doc;
                   anchor_id := to_gint (counter s + 1); anchor_pos := pos |} in
  ∃ s',
    navqueue_add_position doc pos s = Some s'
    ∧ nav_queue_pos s' = 0
    ∧ (length (navigation_queue s) < 100 → navigation_queue s' = anchor :: tested)
    ∧ (length (navigation_queue s) = 100 →
       navigation_queue s' = anchor :: take 99 tested
       ∧ length (navigation_queue s') = 100).
Proof.
  intros Hfile Hk Htest. cbn zeta.
  destruct (add_position_total doc pos s) as [s' Hs']; [lia|].
  exists s'. split; [done|].
  apply add_position_inv in Hs'
    as [[? _]|[(_ & Hdup & _)|(file' & w1 & Hfile' & _ & _ & _ & _ & Hq & Hp & _)]].
  - congruence.
  - rewrite Hk in Hdup. congruence.
  - assert (file' = file) as -> by congruence.
    rewrite Hk in Hq. rewrite drop_0 in Hq.
    pose proof (queue_pos_matches_length (world s) (navigation_queue s) 0 doc pos) as Hlen.
    split; [done|]. split.
    + intros Hshort. rewrite Hq. apply take_ge. cbn [length].
      unfold MAX_NAVQUEUE_LENGTH. lia.
    + intros Hfull. rewrite Hq. unfold MAX_NAVQUEUE_LENGTH. cbn [take].
      split; [done|]. cbn [length]. rewrite length_take. lia.
Qed.

(** X12: navqueue_free empties the queue, whatever its length, one
    anchor after the other from the tail, and does nothing to the
    documents: the indicators of the anchors stay in the texts. *)
Theorem navqueue_free_empties s :
  navigation_queue (navqueue_free s) = []
  ∧ world (navqueue_free s) = world s.
Proof.
  split; [|done]. unfold navqueue_free. cbn [navigation_queue].
  assert (∀ fuel q, length q ≤ fuel → free_loop fuel q = []) as Hloop.
  { induction fuel as [|fuel IH]; intros q Hq.
    - destruct q; [done|cbn in Hq; lia].
    - cbn [free_loop]. case_bool_decide as Hnil; [done|].
      destruct (last q) eqn:Hlast; [|by apply last_None in Hlast].
      apply IH. rewrite length_take. lia. }
  by apply Hloop.
Qed.

End OperationsMore.

(** ** The marker substrate *)

Section LawsMore.
Context {E : Editor} `{!MarkerLaws E}.
Implicit Types (w : World) (a b anchor : NavigationAnchor) (d doc : GeanyDocument).
Implicit Types (q queue : list NavigationAnchor) (s : NavState).

(** X13: clear_anchor releases the tag.  When a document is resolved for
    an anchor whose id is not 0, then after clear_anchor the unit at the
    refreshed offset does not carry the id; it carries 0 if the refresh
    has kept the id. *)
Theorem clear_anchor_releases w anchor d :
  anchor_doc (refresh_anchor w anchor) = Some d →
  anchor_id anchor ≠ 0%Z →
  sci_indicator_value_at (clear_anchor w anchor) d (anchor_pos (refresh_anchor w anchor))
  ≠ anchor_id anchor
  ∧ (anchor_id (refresh_anchor w anchor) ≠ 0%Z →
     sci_indicator_value_at (clear_anchor w anchor) d (anchor_pos (refresh_anchor w anchor))
     = 0%Z).
Proof.
  intros Hdoc Hid.
  assert (anchor_id (refresh_anchor w anchor) ≠ 0%Z →
          sci_indicator_value_at (clear_anchor w anchor) d
            (anchor_pos (refresh_anchor w anchor)) = 0%Z) as Hkept.
  { intros H0. pose proof (refresh_anchor_tagged w anchor d Hdoc H0) as Htag.
    unfold clear_anchor. rewrite Hdoc, Htag, Z.eqb_refl, value_at_clear.
    by rewrite decide_True. }
  split; [|done].
  destruct (decide (anchor_id (refresh_anchor w anchor) = 0%Z)) as [H0|H0].
  2:{ rewrite Hkept by done. congruence. }
  assert (sci_indicator_value_at w d (anchor_pos anchor) ≠ anchor_id anchor) as Hslow.
  { intros Hfast. destruct (refresh_anchor_fast w anchor d Hdoc Hfast) as [Hid' _].
    congruence. }
  pose proof (refresh_anchor_slow w anchor d Hdoc Hid Hslow) as Hout.
  destruct (indicator_scan (sci_indicator_value_at w d) (sci_indicator_end w d)
              (anchor_id anchor)); [destruct Hout; congruence|].
  destruct Hout as [_ ->].
  destruct (clear_anchor_value_at w anchor d (anchor_pos anchor)) as [->|[-> _]];
    congruence.
Qed.

Lemma add_position_world (P : World → Prop) doc pos s s' :
  (∀ w a, P w → P (clear_anchor w a)) →
  (∀ w id, P w → P (sci_indicator_fill w doc id pos)) →
  P (world s) → navqueue_add_position doc pos s = Some s' → P (world s').
Proof.
  intros Hclear Hfill Hs Hadd.
  apply add_position_inv in Hadd
    as [[_ ->]|[(_ & _ & ->)|(file & w1 & _ & _ & _ & Hdrop & -> & _)]]; [done..|].
  apply (evict_tail_keeps P (λ _, True)); [auto| |].
  - apply Forall_forall. done.
  - apply Hfill. by eapply (drop_forward_keeps P).
Qed.

(** X14: a push tags the new anchor.  When navqueue_add_position pushes,
    and no anchor of the queue carries the id the counter gives next, the
    new anchor is the head of the queue and, unless that id is 0, the
    unit at its offset in its document carries the id when the call
    returns: neither dropping the forward entries nor evicting at the
    bound clears it. *)
Theorem add_position_tags doc pos s s' file :
  doc_file_name (world s) doc = Some file →
  (queue_pos_matches (world s) (navigation_queue s) (nav_queue_pos s) doc pos).1 = false →
  Forall (λ a, anchor_id a ≠ to_gint (counter s + 1)) (navigation_queue s) →
  navqueue_add_position doc pos s = Some s' →
  navigation_queue s' !! 0
  = Some {| anchor_file := file; anchor_doc := Some doc;
            anchor_id := to_gint (counter s + 1); anchor_pos := pos |}
  ∧ counter s' = to_gint (counter s + 1)
  ∧ (to_gint (counter s + 1) ≠ 0%Z →
     sci_indicator_value_at (world s') doc pos = to_gint (counter s + 1)).
Proof.
  intros Hfile Htest Hfresh Hadd.
  apply add_position_inv in Hadd
    as [[? _]|[(_ & ? & _)|(file' & w1 & Hfile' & _ & _ & Hdrop & Hw & Hq & _ & Hc & _)]];
    [congruence..|].
  assert (file' = file) as -> by congruence.
  split; [by rewrite Hq|]. split; [done|]. intros H0. rewrite Hw.
  set (c := to_gint (counter s + 1)) in *.
  apply (evict_tail_keeps (λ w, sci_indicator_value_at w doc pos = c)
           (λ a, anchor_id a ≠ c)).
  - intros w a Ha Hv. by apply clear_anchor_keeps_tag.
  - apply Forall_drop.
    destruct (queue_pos_matches _ _ _ _ _) as [dup q1] eqn:Ht. cbn [snd].
    apply queue_pos_matches_inv in Ht as [[_ ->]|(a & Ha & _ & _ & ->)]; [done|].
    apply Forall_insert; [done|].
    destruct (refresh_anchor_id (world s) a) as [-> | ->]; [|congruence].
    by apply (Forall_lookup_1 _ _ _ _ Hfresh Ha).
  - rewrite value_at_fill. by rewrite decide_True.
Qed.

(** X15: the guards of navqueue_goto_line.  With a line below 1, a new
    document that is NULL or not valid, or an old document that is given
    and not valid, the call returns FALSE and leaves the queue, the
    cursor and the documents as they are. *)
Theorem goto_line_guards position_from_line old_doc new_doc line s :
  (line < 1)%Z
  ∨ DOC_VALID (world s) new_doc = false
  ∨ (∃ d, old_doc = Some d ∧ doc_is_valid (world s) d = false) →
  navqueue_goto_line position_from_line old_doc new_doc line s = Some (false, s).
Proof.
  intros Hguard. unfold navqueue_goto_line.
  destruct old_doc as [od|]; cbn [negb].
  - destruct (doc_is_valid (world s) od) eqn:Hod; [|done]. cbn [negb].
    destruct new_doc as [nd|]; [|done]. cbn [DOC_VALID] in Hguard.
    destruct (doc_is_valid (world s) nd); [|done]. cbn [negb].
    destruct (Z.leb_spec 1 line); [|done].
    destruct Hguard as [?|[?|(d & [= <-] & ?)]]; [lia|done|congruence].
  - destruct new_doc as [nd|]; [|done]. cbn [DOC_VALID] in Hguard.
    destruct (doc_is_valid (world s) nd); [|done]. cbn [negb].
    destruct (Z.leb_spec 1 line); [|done].
    destruct Hguard as [?|[?|(d & ? & ?)]]; [lia|done|done].
Qed.

(** X16: navqueue_goto_line records where it goes.  From a state that
    keeps the invariant of a session, with valid documents, a line from
    1 on and a new document that has a file name, the call returns with
    what editor_goto_pos answers; afterwards the invariant holds and the
    entry under the cursor has the file name of the new document and the
    position of the line. *)
Theorem goto_line_records position_from_line old_doc new_doc line s file :
  session_inv s →
  (∀ d, old_doc = Some d → doc_is_valid (world s) d = true) →
  doc_is_valid (world s) new_doc = true →
  (1 <= line)%Z →
  doc_file_name (world s) new_doc = Some file →
  ∃ moved s',
    navqueue_goto_line position_from_line old_doc (Some new_doc) line s
    = Some (moved, s')
    ∧ session_inv s'
    ∧ ∃ a, navigation_queue s' !! nav_queue_pos s' = Some a
           ∧ anchor_file a = file
           ∧ anchor_pos a
             = to_gint (position_from_line (world s) new_doc (line - 1)%Z).
Proof.
  intros Hs Hold Hnew Hline Hfile. unfold navqueue_goto_line.
  set (pos := to_gint (position_from_line (world s) new_doc (line - 1)%Z)).
  assert (∃ s1, match old_doc with
                | Some od => navqueue_add_position od
                               (sci_get_current_position (world s) od) s
                | None => Some s
                end = Some s1
                ∧ session_inv s1
                ∧ doc_file_name (world s1) new_doc = Some file) as (s1 & Hs1 & Hinv1 & Hfile1).
  { destruct old_doc as [od|]; [|by exists s].
    destruct (session_inv_add_position od (sci_get_current_position (world s) od) s Hs)
      as (s1 & Hadd & Hinv1).
    exists s1. split_and!; [done..|].
    apply (add_position_world (λ w, doc_file_name w new_doc = Some file) od
             (sci_get_current_position (world s) od) s s1); [| |done..].
    - intros w a. by rewrite clear_anchor_file_name.
    - intros w id. by rewrite file_name_fill. }
  assert (negb match old_doc with
               | Some od => doc_is_valid (world s) od
               | None => true
               end = false) as ->.
  { destruct old_doc as [od|]; [|done]. by rewrite (Hold od). }
  rewrite Hnew. cbn [negb]. destruct (Z.leb_spec 1 line); [|lia]. cbn [negb].
  rewrite Hs1. cbn [mbind option_bind].
  destruct (session_inv_add_position new_doc pos s1 Hinv1) as (s2 & Hadd2 & Hinv2).
  rewrite Hadd2. cbn [mbind option_bind].
  destruct (add_position_inv _ _ _ _ Hadd2) as [[? _]|[Hdup|Hpush]]; [congruence| |].
  - destruct (editor_goto_pos (world s2) new_doc pos) as [moved w].
    eexists _, _. split; [done|]. split; [done|]. cbn [navigation_queue nav_queue_pos].
    destruct Hdup as (_ & Hdup & ->). cbn [navigation_queue nav_queue_pos].
    destruct (queue_pos_matches _ _ _ _ _) as [dup q1] eqn:Ht. cbn [fst snd] in *.
    subst dup.
    apply queue_pos_matches_inv in Ht as [[? _]|(a & Ha & Hfa & Hpos & ->)]; [done|].
    exists (refresh_anchor (world s1) a).
    rewrite list_lookup_insert_eq by (by eapply lookup_lt_Some).
    rewrite refresh_anchor_file. split_and!; [done|congruence|].
    symmetry in Hpos. by apply bool_decide_eq_true in Hpos.
  - destruct (editor_goto_pos (world s2) new_doc pos) as [moved w].
    eexists _, _. split; [done|]. split; [done|]. cbn [navigation_queue nav_queue_pos].
    destruct Hpush as (file' & w1 & Hfile' & _ & _ & _ & _ & Hq & Hp & _).
    rewrite Hq, Hp. eexists. split; [reflexivity|]. cbn. split; congruence.
Qed.

End LawsMore.

(** ** The further properties on the small editor *)

Lemma model_range_end fuel ind value pos :
  (pos <= Model.range_end fuel ind value pos <= pos + Z.of_nat fuel)%Z
  ∧ ∀ q, (pos <= q < Model.range_end fuel ind value pos)%Z → ind q = value.
Proof.
  revert pos. induction fuel as [|fuel IH]; intros pos; cbn [Model.range_end].
  - split; [lia|]. intros q Hq. lia.
  - destruct (Z.eqb_spec (ind pos) value) as [Hv|Hv].
    + destruct (IH (pos + 1)%Z) as [Hr Hsame]. split; [lia|].
      intros q Hq. destruct (decide (q = pos)) as [->|]; [done|]. apply Hsame. lia.
    + split; [lia|]. intros q Hq. lia.
Qed.

(** The indicator of the small editor has well-formed ranges. *)
Lemma model_ranges_ok (w : Model.editor_state) (d : nat) :
  (Model.text_length (Model.documents w d) <= 2147483647)%Z →
  ranges_ok (@sci_indicator_value_at Model.editor w d)
    (@sci_indicator_end Model.editor w d)
    (Model.text_length (Model.documents w d)).
Proof.
  intros Hlen. split; [done|]. intros pos Hpos. cbn. unfold Model.indicator_end.
  destruct (Z.ltb_spec pos 0); [lia|].
  destruct (Z.leb_spec (Model.text_length (Model.documents w d)) pos); [lia|]. cbn [orb].
  destruct (model_range_end
              (Z.to_nat (Model.text_length (Model.documents w d) - pos - 1))
              (Model.indicator (Model.documents w d))
              (Model.indicator (Model.documents w d) pos) (pos + 1)) as [Hr Hsame].
  split; [lia|]. intros q Hq. destruct (decide (q = pos)) as [->|]; [done|].
  apply Hsame. lia.
Qed.

Section MoreRuns.
Import Model.

(** X4 on "a.c", tagged at 10, for an anchor whose cached offset 3 is out
    of date. *)
Lemma refresh_anchor_finds_tag_witness :
  let anchor := @Build_NavigationAnchor editor "a.c" (Some 0) 1 3 in
  anchor_doc (refresh_anchor (two_tagged_files 0) anchor) = Some 0
  ∧ anchor_id (refresh_anchor (two_tagged_files 0) anchor) = 1%Z
  ∧ (0 <= anchor_pos (refresh_anchor (two_tagged_files 0) anchor) <= 10)%Z.
Proof.
  cbn zeta.
  set (anchor := @Build_NavigationAnchor editor "a.c" (Some 0) 1 3).
  assert (anchor_doc (refresh_anchor (two_tagged_files 0) anchor) = Some 0) as H1
    by (vm_compute; reflexivity).
  assert (anchor_id anchor ≠ 0%Z) as H2 by discriminate.
  assert (ranges_ok (@sci_indicator_value_at editor (two_tagged_files 0) 0)
            (@sci_indicator_end editor (two_tagged_files 0) 0) 100) as H3.
  { apply (model_ranges_ok (two_tagged_files 0) 0). vm_compute. discriminate. }
  assert (0 <= 10 < 100)%Z as H4 by lia.
  assert (@sci_indicator_value_at editor (two_tagged_files 0) 0 10 = anchor_id anchor)
    as H5 by reflexivity.
  assert (@sci_indicator_value_at editor (two_tagged_files 0) 0 (anchor_pos anchor)
          ≠ anchor_id anchor) as H6 by (vm_compute; discriminate).
  destruct (refresh_anchor_finds_tag (E := editor) _ anchor 0%nat 100 10 H1 H2 H3 H4 H5)
    as (Hid & _ & Hpos).
  split; [done|]. split; [done|]. by apply Hpos.
Defined.

(** X6 on the session that visits the two files. *)
Lemma session_ids_ordered_witness :
  (Z.of_nat (length [AddPosition (E := editor) 0%nat 10; AddPosition (E := editor) 1%nat 5])
   < 2147483647)%Z
  ∧ ∃ s, run (E := editor) [AddPosition 0 10; AddPosition 1 5] (navqueue_init two_files)
         = Some s
         ∧ (0 <= counter s <= 2)%Z.
Proof.
  assert (Z.of_nat (length [AddPosition (E := editor) 0%nat 10; AddPosition (E := editor) 1%nat 5])
          < 2147483647)%Z as H1 by (cbn; lia).
  split; [done|].
  destruct (run (E := editor) [AddPosition (E := editor) 0 10; AddPosition (E := editor) 1 5]
              (navqueue_init (E := editor) two_files)) as [s|] eqn:H2;
    [|by vm_compute in H2].
  exists s. split; [done|].
  exact (proj1 (session_ids_ordered (E := editor) _ two_files s H1 H2)).
Defined.

(** X8 on the two files, from "b.c": back to "a.c" and forward again. *)
Lemma back_then_forward_witness :
  let s := visited (two_tagged_files 1) 0 1 in
  navigation_queue s !! (nav_queue_pos s + 1) = Some (anchor_a 1)
  ∧ navigation_queue s !! nav_queue_pos s = Some anchor_b
  ∧ (goto_anchor (world s) (anchor_a 1)).1.1 = true
  ∧ (goto_anchor (goto_anchor (world s) (anchor_a 1)).1.2 anchor_b).1.1 = true
  ∧ ∃ s1 s2, go_back_step s = Some s1 ∧ navqueue_go_forward s1 = Some s2
             ∧ nav_queue_pos s2 = 0.
Proof.
  cbn zeta.
  set (s := visited (two_tagged_files 1) 0 1).
  assert (navigation_queue s !! (nav_queue_pos s + 1) = Some (anchor_a 1)) as H1
    by reflexivity.
  assert (navigation_queue s !! nav_queue_pos s = Some anchor_b) as H2 by reflexivity.
  assert ((goto_anchor (world s) (anchor_a 1)).1.1 = true) as H3
    by (vm_compute; reflexivity).
  assert ((goto_anchor (goto_anchor (world s) (anchor_a 1)).1.2 anchor_b).1.1 = true) as H4
    by (vm_compute; reflexivity).
  split; [done|]. split; [done|]. split; [done|]. split; [done|].
  destruct (back_then_forward (E := editor) s _ _ H1 H2 H3 H4)
    as (s1 & s2 & Hs1 & Hs2 & _ & Hp & _).
  by exists s1, s2.
Defined.

(** X10 on the two files: "b.c" at 5 is added to the empty queue. *)
Lemma add_position_records_witness :
  let s := navqueue_init two_files in
  doc_file_name (world s) 1 = Some "b.c"
  ∧ ∃ s', navqueue_add_position 1 5 s = Some s'
          ∧ ∃ a, navigation_queue s' !! nav_queue_pos s' = Some a
                 ∧ anchor_file a = "b.c" ∧ anchor_pos a = 5%Z.
Proof.
  cbn zeta.
  assert (doc_file_name (world (navqueue_init (E := editor) two_files)) 1 = Some "b.c")
    as H1 by reflexivity.
  split; [done|].
  destruct (navqueue_add_position (E := editor) 1 5 (navqueue_init (E := editor) two_files))
    as [s'|] eqn:H2; [|by vm_compute in H2].
  exists s'. split; [done|].
  exact (add_position_records (E := editor) 1 5 _ s' "b.c" H1 H2).
Defined.

(** X11 on the two visited files, the cursor on the head: another offset
    of "a.c" is pushed in front of the two entries. *)
Lemma add_position_at_head_witness :
  let s := visited (two_tagged_files 0) 0 1 in
  doc_file_name (world s) 0 = Some "a.c"
  ∧ nav_queue_pos s = 0
  ∧ (queue_pos_matches (world s) (navigation_queue s) 0 0 50).1 = false
  ∧ ∃ s', navqueue_add_position 0 50 s = Some s' ∧ length (navigation_queue s') = 3.
Proof.
  cbn zeta.
  set (s := visited (two_tagged_files 0) 0 1).
  assert (doc_file_name (world s) 0 = Some "a.c") as H1 by reflexivity.
  assert (nav_queue_pos s = 0) as H2 by reflexivity.
  assert ((queue_pos_matches (world s) (navigation_queue s) 0 0 50).1 = false) as H3
    by (vm_compute; reflexivity).
  split; [done|]. split; [done|]. split; [done|].
  destruct (add_position_at_head (E := editor) 0 50 s "a.c" H1 H2 H3)
    as (s' & Hs' & _ & Hshort & _).
  exists s'. split; [done|]. rewrite Hshort; [reflexivity|]. vm_compute. lia.
Defined.

(** X13 on the two tagged files: the anchor of "b.c" is cleared. *)
Lemma clear_anchor_releases_witness :
  anchor_doc (refresh_anchor (two_tagged_files 0) anchor_b) = Some 1
  ∧ anchor_id anchor_b ≠ 0%Z
  ∧ sci_indicator_value_at (clear_anchor (two_tagged_files 0) anchor_b) 1
      (anchor_pos (refresh_anchor (two_tagged_files 0) anchor_b))
    ≠ anchor_id anchor_b.
Proof.
  assert (anchor_doc (refresh_anchor (two_tagged_files 0) anchor_b) = Some 1) as H1
    by (vm_compute; reflexivity).
  assert (anchor_id anchor_b ≠ 0%Z) as H2 by discriminate.
  split; [done|]. split; [done|].
  exact (proj1 (clear_anchor_releases (E := editor) (two_tagged_files 0) anchor_b 1 H1 H2)).
Defined.

(** X14 on the two files: "b.c" at 5 is pushed on the empty queue. *)
Lemma add_position_tags_witness :
  let s := navqueue_init two_files in
  doc_file_name (world s) 1 = Some "b.c"
  ∧ (queue_pos_matches (world s) (navigation_queue s) (nav_queue_pos s) 1 5).1 = false
  ∧ Forall (λ a, anchor_id a ≠ to_gint (counter s + 1)) (navigation_queue s)
  ∧ ∃ s', navqueue_add_position 1 5 s = Some s'
          ∧ sci_indicator_value_at (world s') 1 5 = 1%Z.
Proof.
  cbn zeta.
  set (s := navqueue_init (E := editor) two_files).
  assert (doc_file_name (world s) 1 = Some "b.c") as H1 by reflexivity.
  assert ((queue_pos_matches (world s) (navigation_queue s) (nav_queue_pos s) 1 5).1
          = false) as H2 by reflexivity.
  assert (Forall (λ a, anchor_id a ≠ to_gint (counter s + 1)) (navigation_queue s)) as H3
    by constructor.
  split; [done|]. split; [done|]. split; [done|].
  destruct (navqueue_add_position (E := editor) 1 5 s) as [s'|] eqn:H4;
    [|by vm_compute in H4].
  exists s'. split; [done|].
  destruct (add_position_tags (E := editor) 1 5 s s' "b.c" H1 H2 H3 H4) as (_ & _ & Htag).
  apply Htag. vm_compute. discriminate.
Defined.

(** X15 on the two files: line 0 is refused. *)
Lemma goto_line_guards_witness :
  (0 < 1)%Z
  ∧ navqueue_goto_line (E := editor) (λ _ _ line, 10 * line)%Z (Some 0) (Some 1) 0
      (navqueue_init two_files)
    = Some (false, navqueue_init two_files).
Proof.
  assert (0 < 1)%Z as H1 by lia.
  split; [done|].
  apply (goto_line_guards (E := editor)). by left.
Defined.

(** X16 on the two files: from "a.c" to line 3 of "b.c", which is at
    offset 20. *)
Lemma goto_line_records_witness :
  let s := navqueue_init two_files in
  session_inv s
  ∧ doc_is_valid (world s) 0 = true
  ∧ doc_is_valid (world s) 1 = true
  ∧ (1 <= 3)%Z
  ∧ doc_file_name (world s) 1 = Some "b.c"
  ∧ ∃ moved s',
      navqueue_goto_line (E := editor) (λ _ _ line, 10 * line)%Z (Some 0) (Some 1) 3 s
      = Some (moved, s')
      ∧ ∃ a, navigation_queue s' !! nav_queue_pos s' = Some a
             ∧ anchor_file a = "b.c" ∧ anchor_pos a = 20%Z.
Proof.
  cbn zeta.
  set (s := navqueue_init (E := editor) two_files).
  assert (session_inv s) as H1 by apply session_inv_init.
  assert (doc_is_valid (world s) 0 = true) as H2 by reflexivity.
  assert (doc_is_valid (world s) 1 = true) as H3 by reflexivity.
  assert (1 <= 3)%Z as H4 by lia.
  assert (doc_file_name (world s) 1 = Some "b.c") as H5 by reflexivity.
  split; [done|]. split; [done|]. split; [done|]. split; [done|]. split; [done|].
  destruct (goto_line_records (E := editor) (λ _ _ line, 10 * line)%Z (Some 0) 1 3 s "b.c"
              H1 (λ d Hd, eq_ind 0 (λ d, doc_is_valid (world s) d = true) H2 d
                            (f_equal (default 0) Hd)) H3 H4 H5)
    as (moved & s' & Hcall & _ & a & Ha & Hfile & Hpos).
  exists moved, s'. split; [done|]. exists a. split_and!; [done..|].
  rewrite Hpos. reflexivity.
Defined.

End MoreRuns.
